(** * The traffic-light detector node ([ros/src/tl_detector/tl_detector.py])

    A shallow embedding of the [TLDetector] class: the callbacks of the node
    are state transformers over a record holding the attributes of [self].
    Python integers are [Z]; the [float64] coordinates of the ROS messages are
    read as the rationals they denote and computed with exactly, in [Q].
    A Python exception is an outcome of a call, and the attribute writes made
    before it was raised stay in the state. *)

From Stdlib Require Import String ZArith QArith List Bool Lia Permutation Sorted.
Import ListNotations.
Open Scope Z_scope.

(** ** Messages *)

Module Point.
Record t := { x : Q; y : Q; z : Q }.
End Point.

Module Quaternion.
Record t := { x : Q; y : Q; z : Q; w : Q }.
End Quaternion.

Module Pose.
Record t := { position : Point.t; orientation : Quaternion.t }.
End Pose.

Module PoseStamped.
Record t := { pose : Pose.t }.
End PoseStamped.

Module Waypoint.
Record t := { pose : PoseStamped.t }.
End Waypoint.

Module TrafficLight.
Record t := { pose : PoseStamped.t; state : Z }.

(** Modelled from the spec: the colour constants of the message
    [styx_msgs/TrafficLight], whose declaration is not among the sources.
    The spec names the four colours; they are [uint8] constants of the
    message, and the development uses nothing of the numbers but that
    they differ. *)
Definition UNKNOWN : Z := 4.
Definition GREEN : Z := 2.
Definition YELLOW : Z := 1.
Definition RED : Z := 0.
End TrafficLight.

Module Image.
(** [sensor_msgs/Image]: the fields a frame is made of. *)
Record t := { height : Z; width : Z; encoding : string; data : list Z }.
End Image.

(** The decoded frame, and the pair [lookupTransform] answers with. *)
Definition CvImage : Type := list (list Z).
Definition Transform : Type := (list Q * list Q)%type.

(** ** Built-ins and numpy on lists *)

Inductive exn := IndexError | KeyError | TypeError | AttributeError.

Inductive outcome (A : Type) :=
| Returned (a : A)
| Raised (e : exn).
Arguments Returned {A} a.
Arguments Raised {A} e.

(** [l[i]]: a negative index counts from the end, an index out of range
    raises [IndexError]. *)
Definition getitem {A : Type} (l : list A) (i : Z) : outcome A :=
  let n := Z.of_nat (length l) in
  let j := if i <? 0 then i + n else i in
  if (0 <=? j) && (j <? n) then
    match nth_error l (Z.to_nat j) with
    | Some a => Returned a
    | None => Raised IndexError
    end
  else Raised IndexError.

(** [d[k]] on a dictionary with string keys. *)
Fixpoint dict_get {V : Type} (d : list (string * V)) (k : string) : outcome V :=
  match d with
  | [] => Raised KeyError
  | (k', v) :: d' => if String.eqb k k' then Returned v else dict_get d' k
  end.

Definition enumerate {A : Type} (l : list A) : list (Z * A) :=
  combine (map Z.of_nat (seq 0 (length l))) l.

Fixpoint zip_with {A B C : Type} (f : A -> B -> C) (l : list A) (l' : list B) : list C :=
  match l, l' with
  | a :: r, b :: r' => f a b :: zip_with f r r'
  | _, _ => []
  end.

Definition Qlt_bool (a b : Q) : bool := negb (Qle_bool b a).

Module np.
(** [a - b] on arrays of one shape. *)
Definition sub (a b : list Q) : list Q := zip_with Qminus a b.

(** [np.dot] of two vectors. *)
Definition dot (a b : list Q) : Q := fold_right Qplus 0%Q (zip_with Qmult a b).

(** [np.matmul(v, m)] for a vector [v] and a matrix [m] given by its rows:
    the vector is taken as a row, so entry [j] is the sum over [i] of
    [v[i] * m[i][j]], the combination of the rows of [m] weighted by [v]. *)
Definition matmul (v : list Q) (m : list (list Q)) : list Q :=
  fold_right (fun cr acc => zip_with Qplus (map (Qmult (fst cr)) (snd cr)) acc)
             (repeat 0%Q (length (hd [] m))) (combine v m).

(** The square of [np.linalg.norm v]. *)
Definition norm_sq (v : list Q) : Q := dot v v.
End np.

Module tf_transformations.
(** [numpy.finfo(float).eps * 4.0], that is [2^-50]. *)
Definition _EPS : Q := 1 # (2 ^ 50).

(** [tf.transformations.quaternion_matrix], the homogeneous rotation matrix
    of the quaternion [(x, y, z, w)].  The library scales [q] by
    [sqrt(2 / nq)] and takes the outer product of the result with itself;
    entry [(i, j)] of that product is [2 * q[i] * q[j] / nq], which is what
    [o i j] computes, [oij] for short. *)
Definition quaternion_matrix (q : list Q) : list (list Q) :=
  let nq := np.dot q q in
  if Qlt_bool nq _EPS then
    [[1; 0; 0; 0]; [0; 1; 0; 0]; [0; 0; 1; 0]; [0; 0; 0; 1]]%Q
  else
    let o (i j : nat) := (2 * nth i q 0 * nth j q 0 / nq)%Q in
    let o00 := o 0%nat 0%nat in let o01 := o 0%nat 1%nat in
    let o02 := o 0%nat 2%nat in let o03 := o 0%nat 3%nat in
    let o11 := o 1%nat 1%nat in let o12 := o 1%nat 2%nat in
    let o13 := o 1%nat 3%nat in let o22 := o 2%nat 2%nat in
    let o23 := o 2%nat 3%nat in
    [[1 - o11 - o22;     o01 - o23;     o02 + o13; 0];
     [    o01 + o23; 1 - o00 - o22;     o12 - o03; 0];
     [    o02 - o13;     o12 + o03; 1 - o00 - o11; 0];
     [            0;             0;             0; 1]]%Q.
End tf_transformations.

(** [list.sort(key=...)] is stable: elements with equal keys keep their
    order.  A stable sort has one possible result, computed here by
    insertion from the right. *)
Section Sort.
Context {A : Type} (key : A -> Q).

Fixpoint insert_by (a : A) (l : list A) : list A :=
  match l with
  | [] => [a]
  | b :: r => if Qle_bool (key a) (key b) then a :: b :: r else b :: insert_by a r
  end.

Fixpoint sort_by (l : list A) : list A :=
  match l with
  | [] => []
  | a :: r => insert_by a (sort_by r)
  end.
End Sort.

(** ** The node *)

Definition STATE_COUNT_THRESHOLD : Z := 3.

(** The attributes of [self].  [upcoming_red_light_pub] is the publisher of
    [/traffic_waypoint], kept as the list of the values published so far,
    oldest first; [base_wp_sub] tells whether the subscription to
    [/base_waypoints] is still registered; [bridge] and [listener] stand for
    the [CvBridge] decoder and for the answer of the transform listener; the
    decoder is taken to convert every frame it is given.
    [has_image] and [prev_light_loc] are created by the methods that first
    assign them. *)
Record TLDetector := {
  pose : option PoseStamped.t;
  waypoints : list Waypoint.t;
  camera_image : option Image.t;
  lights : list TrafficLight.t;
  config : list (string * list (string * Z));
  bridge : Image.t -> CvImage;
  listener : option Transform;
  upcoming_red_light_pub : list Z;
  base_wp_sub : bool;
  state : Z;
  last_state : Z;
  last_wp : Z;
  state_count : Z;
  light_waypoints : list (list Z);
  light_indexed : bool;
  has_image : bool;
  prev_light_loc : option (Z * Z)
}.

Definition set_pose v s :=
  Build_TLDetector v (waypoints s) (camera_image s) (lights s) (config s) (bridge s)
    (listener s) (upcoming_red_light_pub s) (base_wp_sub s) (state s) (last_state s)
    (last_wp s) (state_count s) (light_waypoints s) (light_indexed s) (has_image s)
    (prev_light_loc s).
Definition set_waypoints v s :=
  Build_TLDetector (pose s) v (camera_image s) (lights s) (config s) (bridge s)
    (listener s) (upcoming_red_light_pub s) (base_wp_sub s) (state s) (last_state s)
    (last_wp s) (state_count s) (light_waypoints s) (light_indexed s) (has_image s)
    (prev_light_loc s).
Definition set_camera_image v s :=
  Build_TLDetector (pose s) (waypoints s) v (lights s) (config s) (bridge s)
    (listener s) (upcoming_red_light_pub s) (base_wp_sub s) (state s) (last_state s)
    (last_wp s) (state_count s) (light_waypoints s) (light_indexed s) (has_image s)
    (prev_light_loc s).
Definition set_lights v s :=
  Build_TLDetector (pose s) (waypoints s) (camera_image s) v (config s) (bridge s)
    (listener s) (upcoming_red_light_pub s) (base_wp_sub s) (state s) (last_state s)
    (last_wp s) (state_count s) (light_waypoints s) (light_indexed s) (has_image s)
    (prev_light_loc s).
Definition set_upcoming_red_light_pub v s :=
  Build_TLDetector (pose s) (waypoints s) (camera_image s) (lights s) (config s) (bridge s)
    (listener s) v (base_wp_sub s) (state s) (last_state s)
    (last_wp s) (state_count s) (light_waypoints s) (light_indexed s) (has_image s)
    (prev_light_loc s).
Definition set_base_wp_sub v s :=
  Build_TLDetector (pose s) (waypoints s) (camera_image s) (lights s) (config s) (bridge s)
    (listener s) (upcoming_red_light_pub s) v (state s) (last_state s)
    (last_wp s) (state_count s) (light_waypoints s) (light_indexed s) (has_image s)
    (prev_light_loc s).
Definition set_state v s :=
  Build_TLDetector (pose s) (waypoints s) (camera_image s) (lights s) (config s) (bridge s)
    (listener s) (upcoming_red_light_pub s) (base_wp_sub s) v (last_state s)
    (last_wp s) (state_count s) (light_waypoints s) (light_indexed s) (has_image s)
    (prev_light_loc s).
Definition set_last_state v s :=
  Build_TLDetector (pose s) (waypoints s) (camera_image s) (lights s) (config s) (bridge s)
    (listener s) (upcoming_red_light_pub s) (base_wp_sub s) (state s) v
    (last_wp s) (state_count s) (light_waypoints s) (light_indexed s) (has_image s)
    (prev_light_loc s).
Definition set_last_wp v s :=
  Build_TLDetector (pose s) (waypoints s) (camera_image s) (lights s) (config s) (bridge s)
    (listener s) (upcoming_red_light_pub s) (base_wp_sub s) (state s) (last_state s)
    v (state_count s) (light_waypoints s) (light_indexed s) (has_image s)
    (prev_light_loc s).
Definition set_state_count v s :=
  Build_TLDetector (pose s) (waypoints s) (camera_image s) (lights s) (config s) (bridge s)
    (listener s) (upcoming_red_light_pub s) (base_wp_sub s) (state s) (last_state s)
    (last_wp s) v (light_waypoints s) (light_indexed s) (has_image s)
    (prev_light_loc s).
Definition set_light_waypoints v s :=
  Build_TLDetector (pose s) (waypoints s) (camera_image s) (lights s) (config s) (bridge s)
    (listener s) (upcoming_red_light_pub s) (base_wp_sub s) (state s) (last_state s)
    (last_wp s) (state_count s) v (light_indexed s) (has_image s)
    (prev_light_loc s).
Definition set_light_indexed v s :=
  Build_TLDetector (pose s) (waypoints s) (camera_image s) (lights s) (config s) (bridge s)
    (listener s) (upcoming_red_light_pub s) (base_wp_sub s) (state s) (last_state s)
    (last_wp s) (state_count s) (light_waypoints s) v (has_image s)
    (prev_light_loc s).
Definition set_has_image v s :=
  Build_TLDetector (pose s) (waypoints s) (camera_image s) (lights s) (config s) (bridge s)
    (listener s) (upcoming_red_light_pub s) (base_wp_sub s) (state s) (last_state s)
    (last_wp s) (state_count s) (light_waypoints s) (light_indexed s) v
    (prev_light_loc s).
Definition set_prev_light_loc v s :=
  Build_TLDetector (pose s) (waypoints s) (camera_image s) (lights s) (config s) (bridge s)
    (listener s) (upcoming_red_light_pub s) (base_wp_sub s) (state s) (last_state s)
    (last_wp s) (state_count s) (light_waypoints s) (light_indexed s) (has_image s)
    v.

(** *** Methods as computations on [self] *)

Definition M (A : Type) : Type := TLDetector -> outcome A * TLDetector.

Definition ret {A : Type} (a : A) : M A := fun s => (Returned a, s).

Definition bind {A B : Type} (m : M A) (f : A -> M B) : M B :=
  fun s =>
    match m s with
    | (Returned a, s') => f a s'
    | (Raised e, s') => (Raised e, s')
    end.

Definition get : M TLDetector := fun s => (Returned s, s).

Definition modify (f : TLDetector -> TLDetector) : M unit :=
  fun s => (Returned tt, f s).

Definition lift {A : Type} (o : outcome A) : M A := fun s => (o, s).

Notation "x <- c1 ;; c2" := (bind c1 (fun x => c2))
  (at level 61, c1 at next level, right associativity).
Notation "c1 ;; c2" := (bind c1 (fun _ => c2))
  (at level 61, right associativity).

(** [for a in l: body(a)] *)
Fixpoint for_ {A : Type} (l : list A) (body : A -> M unit) : M unit :=
  match l with
  | [] => ret tt
  | a :: r => body a ;; for_ r body
  end.

(** [self.upcoming_red_light_pub.publish(Int32(v))] *)
Definition publish (v : Z) : M unit :=
  modify (fun s => set_upcoming_red_light_pub (upcoming_red_light_pub s ++ [v]) s).

(** [__init__], given the collaborators it creates and the configuration it
    loads. *)
Definition init (cfg : list (string * list (string * Z))) (br : Image.t -> CvImage)
    (li : option Transform) : TLDetector :=
  {| pose := None;
     waypoints := [];
     camera_image := None;
     lights := [];
     config := cfg;
     bridge := br;
     listener := li;
     upcoming_red_light_pub := [];
     base_wp_sub := true;
     state := TrafficLight.UNKNOWN;
     last_state := TrafficLight.UNKNOWN;
     last_wp := -1;
     state_count := 0;
     light_waypoints := [];
     light_indexed := false;
     has_image := false;
     prev_light_loc := None |}.

Definition pose_cb (msg : PoseStamped.t) : M unit :=
  modify (set_pose (Some msg)).

Definition position_of (p : PoseStamped.t) : Point.t :=
  Pose.position (PoseStamped.pose p).

(** The squared distance [index_lights] computes for a light and a waypoint. *)
Definition sq_distance (light_pos wp_pos : Point.t) : Q :=
  ((Point.x light_pos - Point.x wp_pos) ^ 2
   + (Point.y light_pos - Point.y wp_pos) ^ 2
   + (Point.z light_pos - Point.z wp_pos) ^ 2)%Q.

(** The body of the loop of [index_lights] up to the [append]: the
    waypoint indices, sorted on their distance to the light. *)
Definition waypoint_indices (wps : list Waypoint.t) (light : TrafficLight.t) : list Z :=
  let light_pos := position_of (TrafficLight.pose light) in
  let distances :=
    map (fun iw => (fst iw, sq_distance light_pos (position_of (Waypoint.pose (snd iw)))))
        (enumerate wps) in
  let distances := sort_by snd distances in
  map fst distances.

Definition index_lights : M unit :=
  s <- get ;;
  for_ (lights s) (fun light =>
    s <- get ;;
    modify (set_light_waypoints
              (light_waypoints s ++ [waypoint_indices (waypoints s) light]))) ;;
  modify (set_light_indexed true).

Definition truthy {A : Type} (l : list A) : bool :=
  match l with [] => false | _ => true end.

Definition waypoints_cb (msg_waypoints : list Waypoint.t) : M unit :=
  modify (set_waypoints msg_waypoints) ;;
  modify (set_base_wp_sub false) ;;
  s <- get ;;
  if truthy (waypoints s) && truthy (lights s) && negb (light_indexed s)
  then index_lights else ret tt.

Definition traffic_cb (msg_lights : list TrafficLight.t) : M unit :=
  modify (set_lights msg_lights) ;;
  s <- get ;;
  if truthy (waypoints s) && truthy (lights s) && negb (light_indexed s)
  then index_lights else ret tt.

(** [float('inf')] is [None]; [min_dist] holds the square of the distance,
    and [distance < min_dist] is decided on the squares, the square root
    being increasing. *)
Definition lt_min_dist (distance_sq : Q) (min_dist : option Q) : bool :=
  match min_dist with
  | None => true
  | Some m => Qlt_bool distance_sq m
  end.

Definition point_array (p : Point.t) : list Q := [Point.x p; Point.y p; Point.z p].

(** The direction [get_closest_light] takes for the heading of the car. *)
Definition ego_dir_of (o : Quaternion.t) : list Q :=
  let rot := tf_transformations.quaternion_matrix
               [Quaternion.x o; Quaternion.y o; Quaternion.z o; Quaternion.w o] in
  let init_dir := [1; 0; 0; 0]%Q in
  firstn 3 (np.matmul init_dir rot).

(** One turn of the loop of [get_closest_light] on [(min_dist, light_index)]. *)
Definition closest_step (ego_pos ego_dir : list Q) (acc : option Q * option Z)
    (il : Z * TrafficLight.t) : option Q * option Z :=
  let light_pos := point_array (position_of (TrafficLight.pose (snd il))) in
  let light_dir := np.sub light_pos ego_pos in
  if Qlt_bool 0 (np.dot ego_dir light_dir) then
    let distance := np.norm_sq (np.sub ego_pos light_pos) in
    if lt_min_dist distance (fst acc) then (Some distance, Some (fst il)) else acc
  else acc.

(** The method reads [self.pose], not its argument. *)
Definition get_closest_light (pose_arg : Pose.t) : M (option Z) :=
  s <- get ;;
  match pose s with
  | None => lift (Raised AttributeError)
  | Some p =>
    let ego_pos := point_array (position_of p) in
    let ego_dir := ego_dir_of (Pose.orientation (PoseStamped.pose p)) in
    ret (snd (fold_left (closest_step ego_pos ego_dir) (enumerate (lights s)) (None, None)))
  end.

(** The transform is looked up inside a [try] whose handler logs the
    failure, and is not used: the method answers [(0, 0)]. *)
Definition project_to_image_plane (point_in_world : Point.t) : M (Z * Z) :=
  s <- get ;;
  camera_info <- lift (dict_get (config s) "camera_info") ;;
  fx <- lift (dict_get camera_info "focal_length_x") ;;
  fy <- lift (dict_get camera_info "focal_length_y") ;;
  image_width <- lift (dict_get camera_info "image_width") ;;
  image_height <- lift (dict_get camera_info "image_height") ;;
  let trans := option_map fst (listener s) in
  ret (0, 0).

(** [False] is the integer [0]. *)
Definition get_light_state (light : TrafficLight.t) : M Z :=
  s <- get ;;
  if negb (has_image s) then
    modify (set_prev_light_loc None) ;;
    ret 0
  else
    cv_image <- match camera_image s with
                | Some img => ret (bridge s img)
                | None => lift (Raised TypeError)
                end ;;
    xy <- project_to_image_plane (position_of (TrafficLight.pose light)) ;;
    ret (TrafficLight.state light).

Definition get_light_wp (light_index : Z) : M Z :=
  s <- get ;;
  way_points <- lift (getitem (light_waypoints s) light_index) ;;
  lift (getitem way_points 0).

Definition process_traffic_lights : M (Z * Z) :=
  s <- get ;;
  light_index <- match pose s with
                 | Some p => get_closest_light (PoseStamped.pose p)
                 | None => ret None
                 end ;;
  match light_index with
  | Some light_index =>
    light <- lift (getitem (lights s) light_index) ;;
    light_wp <- get_light_wp light_index ;;
    state <- get_light_state light ;;
    ret (light_wp, state)
  | None => ret (-1, TrafficLight.UNKNOWN)
  end.

(** The second half of [image_cb], from [if self.state != state] on. *)
Definition debounce (light_wp state' : Z) : M unit :=
  s <- get ;;
  (if negb (state s =? state') then
     modify (set_state_count 0) ;;
     modify (set_state state')
   else if STATE_COUNT_THRESHOLD <=? state_count s then
     modify (set_last_state (state s)) ;;
     let light_wp := if state' =? TrafficLight.RED then light_wp else -1 in
     modify (set_last_wp light_wp) ;;
     publish light_wp
   else
     publish (last_wp s)) ;;
  modify (fun s => set_state_count (state_count s + 1) s).

Definition image_cb (msg : Image.t) : M unit :=
  modify (set_has_image true) ;;
  modify (set_camera_image (Some msg)) ;;
  r <- process_traffic_lights ;;
  debounce (fst r) (snd r).

(** *** The node at work: messages arrive one at a time *)

Inductive message :=
| current_pose (msg : PoseStamped.t)
| base_waypoints (msg_waypoints : list Waypoint.t)
| traffic_lights (msg_lights : list TrafficLight.t)
| image_color (msg : Image.t).

Definition callback (m : message) : M unit :=
  match m with
  | current_pose msg => pose_cb msg
  | base_waypoints w => waypoints_cb w
  | traffic_lights l => traffic_cb l
  | image_color msg => image_cb msg
  end.

(** The state a callback leaves, whether it returned or raised. *)
Definition after (m : message) (s : TLDetector) : TLDetector := snd (callback m s).

Definition run (ms : list message) (s : TLDetector) : TLDetector :=
  fold_left (fun s m => after m s) ms s.

(** A run of observation cycles on given raw observations
    [(light_wp, state)], as [process_traffic_lights] would return them. *)
Definition debounce_all (obs : list (Z * Z)) (s : TLDetector) : TLDetector :=
  fold_left (fun s o => snd (debounce (fst o) (snd o) s)) obs s.

(** The value a commit stores and publishes: the candidate waypoint for a
    red light, [-1] otherwise. *)
Definition stop_waypoint (light_wp state' : Z) : Z :=
  if state' =? TrafficLight.RED then light_wp else -1.

(** ** Vocabulary of the statements *)

(** *** The route index *)

(** The order of a list sorted on [key] by a stable sort: by key, and
    among equal keys by [earlier], the order of the positions in the list
    that was sorted. *)
Definition sorted_before {A : Type} (key : A -> Q) (earlier : A -> A -> Prop)
    (a b : A) : Prop :=
  (key a < key b)%Q \/ ((key a == key b)%Q /\ earlier a b).

(** The key [index_lights] sorts the waypoint of index [i] on, for
    [light]: what the code computes for the pair. *)
Definition distance_to (light : TrafficLight.t) (wps : list Waypoint.t) (i : Z) : Q :=
  match nth_error wps (Z.to_nat i) with
  | Some wp =>
      sq_distance (position_of (TrafficLight.pose light)) (position_of (Waypoint.pose wp))
  | None => 0
  end.

(** The squared Euclidean distance between two points, written apart from
    the code: the inner product of the difference of the points with
    itself. *)
Definition squared_euclidean (a b : Point.t) : Q :=
  let d := [Point.x a - Point.x b; Point.y a - Point.y b; Point.z a - Point.z b]%Q in
  fold_right Qplus 0%Q (map (fun c => c * c)%Q d).

(** The squared Euclidean distance from the position of [light] to the
    position of the waypoint of index [i]. *)
Definition euclidean_to (light : TrafficLight.t) (wps : list Waypoint.t) (i : Z) : Q :=
  match nth_error wps (Z.to_nat i) with
  | Some wp =>
      squared_euclidean (Pose.position (PoseStamped.pose (TrafficLight.pose light)))
                        (Pose.position (PoseStamped.pose (Waypoint.pose wp)))
  | None => 0
  end.

(** The order of the index of a light: nearer first in squared Euclidean
    distance, and among waypoints at one distance the one of smaller index
    first. *)
Definition nearer (light : TrafficLight.t) (wps : list Waypoint.t) (i k : Z) : Prop :=
  (euclidean_to light wps i < euclidean_to light wps k)%Q \/
  ((euclidean_to light wps i == euclidean_to light wps k)%Q /\ i < k).

(** The indices of the waypoints, in order. *)
Definition all_indices (wps : list Waypoint.t) : list Z :=
  map Z.of_nat (seq 0 (length wps)).

(** While the flag is unset the table is empty. *)
Definition empty_until_built (s : TLDetector) : Prop :=
  light_indexed s = false -> light_waypoints s = [].

(** *** The light ahead *)

(** The test of the loop of [get_closest_light]: the light is ahead of
    the car. *)
Definition ahead (ego_pos ego_dir : list Q) (light : TrafficLight.t) : bool :=
  Qlt_bool 0 (np.dot ego_dir
                (np.sub (point_array (position_of (TrafficLight.pose light))) ego_pos)).

(** The squared distance from the car to the light. *)
Definition distance_sq (ego_pos : list Q) (light : TrafficLight.t) : Q :=
  np.norm_sq (np.sub ego_pos (point_array (position_of (TrafficLight.pose light)))).

(** What [(min_dist, light_index)] holds after the lights [ls]: nothing
    if no light of [ls] is ahead, else the first of the lights ahead that are
    nearest to the car, and its distance. *)
Definition nearest_so_far (ego_pos ego_dir : list Q) (ls : list TrafficLight.t)
    (acc : option Q * option Z) : Prop :=
  match acc with
  | (None, None) => forall light, In light ls -> ahead ego_pos ego_dir light = false
  | (Some d, Some i) =>
      exists (n : nat) (light : TrafficLight.t),
        i = Z.of_nat n /\ nth_error ls n = Some light /\ ahead ego_pos ego_dir light = true /\
        d = distance_sq ego_pos light /\
        forall (m : nat) (light' : TrafficLight.t),
          nth_error ls m = Some light' -> ahead ego_pos ego_dir light' = true ->
          (distance_sq ego_pos light <= distance_sq ego_pos light')%Q /\
          ((m < n)%nat -> (distance_sq ego_pos light < distance_sq ego_pos light')%Q)
  | _ => False
  end.

(** What the loop of [get_closest_light] leaves in [light_index], for a
    car at [p] and the lights [ls]. *)
Definition nearest_ahead (p : PoseStamped.t) (ls : list TrafficLight.t) : option Z :=
  snd (fold_left
         (closest_step (point_array (position_of p))
                       (ego_dir_of (Pose.orientation (PoseStamped.pose p))))
         (enumerate ls) (None, None)).

(** *** The heading, as the spec has it *)

(** The rotation the spec describes, written apart from the code: the
    vector [v] turned by the quaternion [q] is the vector part of
    [q * v * conjugate q / |q|^2], with the Hamilton product. *)
Definition hamilton (a b : Quaternion.t) : Quaternion.t :=
  let (ax, ay, az, aw) := a in
  let (bx, by_, bz, bw) := b in
  {| Quaternion.x := aw * bx + ax * bw + ay * bz - az * by_;
     Quaternion.y := aw * by_ - ax * bz + ay * bw + az * bx;
     Quaternion.z := aw * bz + ax * by_ - ay * bx + az * bw;
     Quaternion.w := aw * bw - ax * bx - ay * by_ - az * bz |}%Q.

(** The conjugate, the inverse rotation of a unit quaternion. *)
Definition conjugate (q : Quaternion.t) : Quaternion.t :=
  {| Quaternion.x := - Quaternion.x q; Quaternion.y := - Quaternion.y q;
     Quaternion.z := - Quaternion.z q; Quaternion.w := Quaternion.w q |}%Q.

(** The squared norm of a quaternion. *)
Definition quat_norm_sq (q : Quaternion.t) : Q :=
  (Quaternion.x q * Quaternion.x q + Quaternion.y q * Quaternion.y q
   + Quaternion.z q * Quaternion.z q + Quaternion.w q * Quaternion.w q)%Q.

(** [v] rotated by [q]. *)
Definition rotate_by (q : Quaternion.t) (v : list Q) : list Q :=
  let pure := {| Quaternion.x := nth 0 v 0; Quaternion.y := nth 1 v 0;
                 Quaternion.z := nth 2 v 0; Quaternion.w := 0 |}%Q in
  let r := hamilton (hamilton q pure) (conjugate q) in
  [Quaternion.x r / quat_norm_sq q; Quaternion.y r / quat_norm_sq q;
   Quaternion.z r / quat_norm_sq q]%Q.

(** The forward direction of the spec: the axis [(1, 0, 0)] rotated by the
    orientation. *)
Definition forward_direction (q : Quaternion.t) : list Q := rotate_by q [1; 0; 0]%Q.

(** Equality of vectors, entry by entry, as rationals. *)
Definition vec_eq (u v : list Q) : Prop := Forall2 Qeq u v.

(** *** A cycle *)

(** A computation that writes no attribute, when started with a frame
    received. *)
Definition reads_only {A : Type} (m : M A) : Prop :=
  forall s, has_image s = true -> snd (m s) = s.

(** Sequencing of calls that may raise. *)
Definition and_then {A B : Type} (o : outcome A) (f : A -> outcome B) : outcome B :=
  match o with
  | Returned a => f a
  | Raised e => Raised e
  end.

(** The four entries [project_to_image_plane] reads from the configuration. *)
Definition camera_intrinsics (cfg : list (string * list (string * Z))) : outcome unit :=
  and_then (dict_get cfg "camera_info") (fun camera_info =>
  and_then (dict_get camera_info "focal_length_x") (fun _ =>
  and_then (dict_get camera_info "focal_length_y") (fun _ =>
  and_then (dict_get camera_info "image_width") (fun _ =>
  and_then (dict_get camera_info "image_height") (fun _ => Returned tt))))).

(** The pair [process_traffic_lights] returns, as a function of the
    attributes it reads: the frame is not among them. *)
Definition observation (s : TLDetector) : outcome (Z * Z) :=
  match pose s with
  | None => Returned (-1, TrafficLight.UNKNOWN)
  | Some p =>
    match nearest_ahead p (lights s) with
    | None => Returned (-1, TrafficLight.UNKNOWN)
    | Some light_index =>
      and_then (getitem (lights s) light_index) (fun light =>
      and_then (getitem (light_waypoints s) light_index) (fun way_points =>
      and_then (getitem way_points 0) (fun light_wp =>
      and_then (camera_intrinsics (config s)) (fun _ =>
      Returned (light_wp, TrafficLight.state light)))))
    end
  end.

(** *** The stored waypoint *)

(** The stored waypoint is the sentinel or heads the entry of a light in
    the index. *)
Definition stored_waypoint_ok (s : TLDetector) : Prop :=
  last_wp s = -1 \/
  exists (i : nat) (way_points : list Z),
    nth_error (light_waypoints s) i = Some way_points /\
    hd_error way_points = Some (last_wp s).

(** What a callback does to the stored waypoint and to the publisher:
    either it keeps the stored waypoint, publishing nothing or that waypoint
    again; or it is a cycle run with the counter at the threshold, which
    makes the observed colour the stable one and stores and publishes its
    waypoint, the sentinel unless the colour is RED. *)
Definition keeps_or_commits (m : message) (s s' : TLDetector) : Prop :=
  (last_wp s' = last_wp s /\
   (upcoming_red_light_pub s' = upcoming_red_light_pub s \/
    upcoming_red_light_pub s' = upcoming_red_light_pub s ++ [last_wp s])) \/
  ((exists img, m = image_color img) /\
   STATE_COUNT_THRESHOLD <= state_count s /\
   last_state s' = state s /\ state s' = state s /\
   upcoming_red_light_pub s' = upcoming_red_light_pub s ++ [last_wp s'] /\
   (last_wp s' <> -1 -> state s = TrafficLight.RED)).

(** The cycle run in state [s] locates the light of index [n], which is
    [light], and [way_points] is the entry of the table at that index. *)
Definition locates (s : TLDetector) (n : nat) (light : TrafficLight.t)
    (way_points : list Z) : Prop :=
  exists p, pose s = Some p /\ nearest_ahead p (lights s) = Some (Z.of_nat n) /\
            nth_error (lights s) n = Some light /\
            nth_error (light_waypoints s) n = Some way_points.

(** The cycle run in state [s] commits RED for the light of index [n]:
    it locates that light, whose colour is RED as was the colour of the cycle
    before, with the counter at the threshold. *)
Definition commits_red (s : TLDetector) (n : nat) (way_points : list Z) : Prop :=
  exists light, locates s n light way_points /\
                TrafficLight.state light = TrafficLight.RED /\
                state s = TrafficLight.RED /\
                STATE_COUNT_THRESHOLD <= state_count s.

(** After the messages [ms] from [s0], the stored waypoint is the
    sentinel, or an earlier cycle of the run committed RED for a light and the
    stored waypoint heads the entry of that light in the table. *)
Definition stored_by_red_commit (s0 : TLDetector) (ms : list message) : Prop :=
  let s := run ms s0 in
  last_wp s = -1 \/
  exists (ms1 : list message) (img : Image.t) (ms2 : list message)
         (n : nat) (way_points : list Z),
    ms = ms1 ++ image_color img :: ms2 /\
    commits_red (run ms1 s0) n way_points /\
    fst (image_cb img (run ms1 s0)) = Returned tt /\
    nth_error (light_waypoints s) n = Some way_points /\
    hd_error way_points = Some (last_wp s).

(** What a callback does to the stored waypoint: it keeps it, publishing
    nothing or that waypoint again; or it is a cycle that returns, run with
    the counter at the threshold, which makes the observed colour the stable
    one and publishes what it stores: the sentinel, or the head of the entry
    of the light it located, when it commits RED for that light. *)
Definition stores_on_red_commit (m : message) (s s' : TLDetector) : Prop :=
  (last_wp s' = last_wp s /\
   (upcoming_red_light_pub s' = upcoming_red_light_pub s \/
    upcoming_red_light_pub s' = upcoming_red_light_pub s ++ [last_wp s])) \/
  ((exists img, m = image_color img /\ fst (image_cb img s) = Returned tt) /\
   STATE_COUNT_THRESHOLD <= state_count s /\
   last_state s' = state s /\
   upcoming_red_light_pub s' = upcoming_red_light_pub s ++ [last_wp s'] /\
   (last_wp s' = -1 \/
    exists (n : nat) (way_points : list Z),
      commits_red s n way_points /\ hd_error way_points = Some (last_wp s'))).

(** *** The node under rospy *)

(** The callbacks as rospy calls them: a message on [/base_waypoints]
    reaches [waypoints_cb] only while the subscription [base_wp_sub] is
    registered, and [waypoints_cb] unregisters it. *)
Definition deliver (m : message) (s : TLDetector) : TLDetector :=
  match m with
  | base_waypoints _ => if base_wp_sub s then after m s else s
  | _ => after m s
  end.

Definition deliver_all (ms : list message) (s : TLDetector) : TLDetector :=
  fold_left (fun s m => deliver m s) ms s.

(** A value fit for [/traffic_waypoint]: the sentinel or the index of a
    waypoint of the route. *)
Definition valid_waypoint (s : TLDetector) (v : Z) : Prop :=
  v = -1 \/ 0 <= v < Z.of_nat (length (waypoints s)).

(** The route is empty until the first delivery, the table is empty
    until a route has arrived and the index is built, the entries of the
    table are permutations of the indices of the route, and what is stored
    and what was published is fit for the topic. *)
Definition route_ok (s : TLDetector) : Prop :=
  (base_wp_sub s = true -> waypoints s = []) /\
  (waypoints s = [] -> light_waypoints s = []) /\
  (light_indexed s = false -> light_waypoints s = []) /\
  Forall (fun e => Permutation e (all_indices (waypoints s))) (light_waypoints s) /\
  stored_waypoint_ok s /\
  Forall (valid_waypoint s) (upcoming_red_light_pub s).

(** The number of observations of colour [c] at the head of a list, and
    at the end of a list. *)
Fixpoint leading_run (c : Z) (obs : list (Z * Z)) : Z :=
  match obs with
  | o :: r => if snd o =? c then 1 + leading_run c r else 0
  | [] => 0
  end.

Definition trailing_run (c : Z) (obs : list (Z * Z)) : Z := leading_run c (rev obs).

(** No entry of the table holds a negative index, and the stored waypoint
    is a waypoint exactly when the stable colour is RED. *)
Definition decision_ok (s : TLDetector) : Prop :=
  Forall (Forall (fun i => 0 <= i)) (light_waypoints s) /\
  (last_state s = TrafficLight.RED -> 0 <= last_wp s) /\
  (last_state s <> TrafficLight.RED -> last_wp s = -1).

(** The number of frames among the messages, and whether a message is
    a pose. *)
Definition frames (ms : list message) : nat :=
  length (filter (fun m => match m with image_color _ => true | _ => false end) ms).

Definition is_pose (m : message) : bool :=
  match m with current_pose _ => true | _ => false end.

(** ** Scenes for the examples *)

(** A configuration with the entries the node reads. *)
Definition camera_config : list (string * list (string * Z)) :=
  [("camera_info"%string,
    [("focal_length_x"%string, 2574); ("focal_length_y"%string, 2744);
     ("image_width"%string, 800); ("image_height"%string, 600)])].

(** The node as [__init__] leaves it. *)
Definition node0 : TLDetector := init camera_config (fun _ => []) None.

(** Two frames. *)
Definition frame : Image.t :=
  {| Image.height := 600; Image.width := 800; Image.encoding := "rgb8"; Image.data := [] |}.

Definition night_frame : Image.t :=
  {| Image.height := 600; Image.width := 800; Image.encoding := "rgb8";
     Image.data := [0; 0; 0] |}.

(** A stamped pose at a position, with an orientation. *)
Definition stamped (px py pz : Q) (o : Quaternion.t) : PoseStamped.t :=
  {| PoseStamped.pose :=
       {| Pose.position := {| Point.x := px; Point.y := py; Point.z := pz |};
          Pose.orientation := o |} |}.

(** The identity orientation: the car heads along [+x]. *)
Definition facing_x : Quaternion.t :=
  {| Quaternion.x := 0; Quaternion.y := 0; Quaternion.z := 0; Quaternion.w := 1 |}.

Definition waypoint_at (px py pz : Q) : Waypoint.t :=
  {| Waypoint.pose := stamped px py pz facing_x |}.

Definition light_at (px py pz : Q) (colour : Z) : TrafficLight.t :=
  {| TrafficLight.pose := stamped px py pz facing_x; TrafficLight.state := colour |}.

(** Three waypoints along [+x]. *)
Definition route : list Waypoint.t :=
  [waypoint_at 0 0 0; waypoint_at 1 0 0; waypoint_at 2 0 0].

Definition car_at_origin : PoseStamped.t := stamped 0 0 0 facing_x.

(** Waypoints, one red light ahead and the pose have arrived: the index is
    built. *)
Definition ready_node : TLDetector :=
  run [base_waypoints route; traffic_lights [light_at 1 0 0 TrafficLight.RED];
       current_pose car_at_origin] node0.

(** The lights and the pose have arrived, the waypoints have not. *)
Definition unindexed_node : TLDetector :=
  run [traffic_lights [light_at 1 0 0 TrafficLight.RED]; current_pose car_at_origin] node0.

(** Waypoints and lights stored, the table still empty. *)
Definition waypoints_and_lights : TLDetector :=
  set_lights [light_at 1 0 0 TrafficLight.RED] (set_waypoints route node0).

(** RED committed with waypoint 42: four cycles on RED from the start. *)
Definition committed_42 : TLDetector :=
  debounce_all (repeat (42, TrafficLight.RED) 4) node0.

(** A unit quaternion: the car is turned to the left, towards [+y], by
    the angle of cosine 7/25 and sine 24/25. *)
Definition heading_left : Quaternion.t :=
  {| Quaternion.x := 0; Quaternion.y := 0; Quaternion.z := 3 # 5; Quaternion.w := 4 # 5 |}.

Definition car_heading_left : PoseStamped.t := stamped 0 0 0 heading_left.

(** The car at the origin heading left, a red light on its left at
    [(0, 5, 0)]; the index is built. *)
Definition left_turn_node : TLDetector :=
  run [base_waypoints route; traffic_lights [light_at 0 5 0 TrafficLight.RED];
       current_pose car_heading_left] node0.

(** The node without the camera entries in its configuration, the index
    built and a red light ahead. *)
Definition unconfigured_node : TLDetector :=
  run [base_waypoints route; traffic_lights [light_at 1 0 0 TrafficLight.RED];
       current_pose car_at_origin] (init [] (fun _ => []) None).

(** The index was built for one light; a later update brings a second
    light, nearer to the car than the first. *)
Definition second_light_node : TLDetector :=
  run [traffic_lights [light_at 2 0 0 TrafficLight.RED; light_at 1 0 0 TrafficLight.RED]]
      ready_node.

(** ** The debouncer: the three branches of [image_cb] *)

Section Debounce.
Variables (light_wp c : Z) (s : TLDetector).

Lemma debounce_returns : fst (debounce light_wp c s) = Returned tt.
Proof.
  unfold debounce, bind, get, modify, publish; cbn.
  destruct (state s =? c); cbn; [destruct (_ <=? _)|]; reflexivity.
Qed.

(** The observed colour changed: the counter restarts, nothing is published. *)
Lemma debounce_change :
  state s <> c ->
  let s' := snd (debounce light_wp c s) in
  state s' = c /\ state_count s' = 1 /\ last_state s' = last_state s /\
  last_wp s' = last_wp s /\ upcoming_red_light_pub s' = upcoming_red_light_pub s.
Proof.
  intros Hne. unfold debounce, bind, get, modify, publish; cbn.
  destruct (Z.eqb_spec (state s) c) as [E|_]; [contradiction|]. cbn. auto.
Qed.

(** The colour is the one of the cycle before and the counter is below the
    threshold: the stored waypoint is published again. *)
Lemma debounce_carry :
  state s = c -> state_count s < STATE_COUNT_THRESHOLD ->
  let s' := snd (debounce light_wp c s) in
  state s' = c /\ state_count s' = state_count s + 1 /\ last_state s' = last_state s /\
  last_wp s' = last_wp s /\
  upcoming_red_light_pub s' = upcoming_red_light_pub s ++ [last_wp s].
Proof.
  intros E Hlt. unfold debounce, bind, get, modify, publish; cbn.
  rewrite (proj2 (Z.eqb_eq _ _) E); cbn.
  destruct (Z.leb_spec STATE_COUNT_THRESHOLD (state_count s)); [lia|]. cbn. auto.
Qed.

(** The colour is the one of the cycle before and the counter has reached
    the threshold: the colour becomes the stable one and its waypoint is
    stored and published. *)
Lemma debounce_commit :
  state s = c -> STATE_COUNT_THRESHOLD <= state_count s ->
  let s' := snd (debounce light_wp c s) in
  state s' = c /\ state_count s' = state_count s + 1 /\ last_state s' = c /\
  last_wp s' = stop_waypoint light_wp c /\
  upcoming_red_light_pub s' = upcoming_red_light_pub s ++ [stop_waypoint light_wp c].
Proof.
  intros E Hle. unfold debounce, bind, get, modify, publish; cbn.
  rewrite (proj2 (Z.eqb_eq _ _) E); cbn.
  destruct (Z.leb_spec STATE_COUNT_THRESHOLD (state_count s)); [|lia]. cbn. auto.
Qed.

(** The debouncer writes its own four attributes and the publisher only. *)
Lemma debounce_frame :
  let s' := snd (debounce light_wp c s) in
  pose s' = pose s /\ waypoints s' = waypoints s /\ camera_image s' = camera_image s /\
  lights s' = lights s /\ light_waypoints s' = light_waypoints s /\
  light_indexed s' = light_indexed s /\ has_image s' = has_image s.
Proof.
  unfold debounce, bind, get, modify, publish; cbn.
  destruct (state s =? c); cbn; [destruct (_ <=? _)|]; cbn; auto 10.
Qed.

End Debounce.

(** ** Runs of the debouncer *)

Lemma debounce_all_cons (o : Z * Z) (obs : list (Z * Z)) (s : TLDetector) :
  debounce_all (o :: obs) s = debounce_all obs (snd (debounce (fst o) (snd o) s)).
Proof. reflexivity. Qed.

Lemma debounce_all_app (obs obs' : list (Z * Z)) (s : TLDetector) :
  debounce_all (obs ++ obs') s = debounce_all obs' (debounce_all obs s).
Proof. apply fold_left_app. Qed.

Lemma last_cons {A : Type} (a d : A) (l : list A) : last (a :: l) d = last l a.
Proof.
  revert a d. induction l as [|b l IH]; intros a d; [reflexivity|].
  change (last (a :: b :: l) d) with (last (b :: l) d). now rewrite !IH.
Qed.

Lemma last_map {A B : Type} (f : A -> B) (l : list A) (a : A) :
  last (map f l) (f a) = f (last l a).
Proof.
  revert a. induction l as [|b l IH]; intros a; [reflexivity|].
  cbn [map]. now rewrite !last_cons.
Qed.

(** Once a colour has been seen for more than the threshold, every further
    cycle on the same colour commits. *)
Lemma debounce_all_steady (c : Z) (ws : list Z) :
  forall s, state s = c -> STATE_COUNT_THRESHOLD <= state_count s ->
  let s' := debounce_all (map (fun w => (w, c)) ws) s in
  state s' = c /\ STATE_COUNT_THRESHOLD <= state_count s' /\
  upcoming_red_light_pub s' =
    upcoming_red_light_pub s ++ map (fun w => stop_waypoint w c) ws /\
  last_wp s' = last (map (fun w => stop_waypoint w c) ws) (last_wp s) /\
  last_state s' = match ws with [] => last_state s | _ => c end.
Proof.
  induction ws as [|w ws IH]; intros s E Hle.
  - cbn. rewrite app_nil_r. auto.
  - destruct (debounce_commit w c s E Hle) as (E1 & C1 & L1 & W1 & P1).
    cbn zeta. cbn [map]. rewrite debounce_all_cons. cbn [fst snd].
    destruct (IH _ E1 ltac:(lia)) as (E2 & C2 & P2 & W2 & L2).
    rewrite E2, P2, W2, P1, W1, last_cons, <- app_assoc. cbn [app].
    repeat split; auto.
    rewrite L2, L1. now destruct ws.
Qed.

(** A colour that differs from the one of the cycle before, observed on
    [length ws] cycles in a row with candidate waypoints [ws]: the first
    cycle publishes nothing, the second and the third publish the stored
    waypoint again, and the fourth is the first to commit. *)
Lemma debounce_all_fresh (c : Z) (ws : list Z) (s : TLDetector) :
  state s <> c ->
  let s' := debounce_all (map (fun w => (w, c)) ws) s in
  ((length ws <= 3)%nat ->
     last_state s' = last_state s /\ last_wp s' = last_wp s /\
     upcoming_red_light_pub s' =
       upcoming_red_light_pub s ++ repeat (last_wp s) (length ws - 1)) /\
  ((4 <= length ws)%nat ->
     last_state s' = c /\ last_wp s' = stop_waypoint (last ws 0) c /\
     upcoming_red_light_pub s' =
       upcoming_red_light_pub s ++ [last_wp s; last_wp s]
         ++ map (fun w => stop_waypoint w c) (skipn 3 ws)).
Proof.
  intros Hne.
  destruct ws as [|w1 ws]; [cbn; split; [now rewrite app_nil_r|lia]|].
  destruct (debounce_change w1 c s Hne) as (E1 & C1 & L1 & W1 & P1).
  cbn zeta. cbn [map]. rewrite debounce_all_cons. cbn [fst snd].
  set (s1 := snd (debounce w1 c s)) in *.
  destruct ws as [|w2 ws];
    [cbn; rewrite L1, W1, P1, app_nil_r; split; [auto|lia]|].
  destruct (debounce_carry w2 c s1 E1) as (E2 & C2 & L2 & W2 & P2);
    [unfold STATE_COUNT_THRESHOLD; lia|].
  cbn [map]. rewrite debounce_all_cons. cbn [fst snd].
  set (s2 := snd (debounce w2 c s1)) in *.
  destruct ws as [|w3 ws];
    [cbn; rewrite L2, W2, P2, L1, W1, P1; split; [auto|lia]|].
  destruct (debounce_carry w3 c s2 E2) as (E3 & C3 & L3 & W3 & P3);
    [unfold STATE_COUNT_THRESHOLD; lia|].
  cbn [map]. rewrite debounce_all_cons. cbn [fst snd].
  set (s3 := snd (debounce w3 c s2)) in *.
  destruct ws as [|w4 ws].
  - cbn. rewrite L3, W3, P3, L2, W2, P2, L1, W1, P1, <- app_assoc. split; [auto|lia].
  - destruct (debounce_all_steady c (w4 :: ws) s3 E3) as (_ & _ & P & W & L);
      [unfold STATE_COUNT_THRESHOLD; lia|].
    split; [cbn [length]; lia|intros _].
    rewrite L, W, P, P3, W2, P2, W1, P1, <- !app_assoc. cbn [skipn app map].
    rewrite !last_cons, (last_map (fun w => stop_waypoint w c)). auto.
Qed.

(** ** One observation cycle *)

Lemma getitem_raises {A : Type} (l : list A) (i : Z) (e : exn) :
  getitem l i = Raised e -> e = IndexError.
Proof.
  unfold getitem. destruct (_ && _); [destruct (nth_error _ _)|]; congruence.
Qed.

Lemma getitem_nil {A : Type} (i : Z) : getitem (@nil A) i = Raised IndexError.
Proof.
  unfold getitem. cbn [length Z.of_nat].
  destruct ((0 <=? (if i <? 0 then i + 0 else i)) && ((if i <? 0 then i + 0 else i) <? 0)) eqn:E;
    [|reflexivity].
  apply andb_true_iff in E. destruct E as [E1 E2]. lia.
Qed.

Lemma reads_only_ret {A : Type} (a : A) : reads_only (ret a).
Proof. now intros s _. Qed.

Lemma reads_only_lift {A : Type} (o : outcome A) : reads_only (lift o).
Proof. now intros s _. Qed.

Lemma reads_only_get : reads_only get.
Proof. now intros s _. Qed.

Lemma reads_only_bind {A B : Type} (m : M A) (f : A -> M B) :
  reads_only m -> (forall a, reads_only (f a)) -> reads_only (bind m f).
Proof.
  intros Hm Hf s H. unfold bind. specialize (Hm s H).
  destruct (m s) as [[a|e] s1]; cbn [snd] in *; subst s1; [now apply Hf|reflexivity].
Qed.

(** [get] followed by a computation chosen on the state read. *)
Lemma reads_only_get_bind {B : Type} (f : TLDetector -> M B) :
  (forall s, has_image s = true -> snd (f s s) = s) -> reads_only (bind get f).
Proof. intros Hf s H. unfold bind, get. now apply Hf. Qed.

Create HintDb reads.
#[local] Hint Resolve reads_only_ret reads_only_lift reads_only_get : reads.

Lemma get_closest_light_reads (p : Pose.t) : reads_only (get_closest_light p).
Proof.
  apply reads_only_get_bind. intros s _. now destruct (pose s).
Qed.

Lemma project_to_image_plane_reads (pt : Point.t) : reads_only (project_to_image_plane pt).
Proof.
  unfold project_to_image_plane.
  repeat (apply reads_only_bind; [auto with reads|intros ?]). auto with reads.
Qed.

Lemma get_light_state_reads (light : TrafficLight.t) : reads_only (get_light_state light).
Proof.
  apply reads_only_get_bind. intros s H. rewrite H. cbn [negb].
  revert s H. apply reads_only_bind.
  - intros s' _. destruct (camera_image _); reflexivity.
  - intros _. apply reads_only_bind; [apply project_to_image_plane_reads|auto with reads].
Qed.

Lemma get_light_wp_reads (light_index : Z) : reads_only (get_light_wp light_index).
Proof.
  unfold get_light_wp.
  repeat (apply reads_only_bind; [auto with reads|intros ?]). auto with reads.
Qed.

(** With a frame received, [process_traffic_lights] reads the attributes
    and writes none. *)
Lemma process_traffic_lights_state (s : TLDetector) :
  has_image s = true -> snd (process_traffic_lights s) = s.
Proof.
  revert s. change (reads_only process_traffic_lights).
  unfold process_traffic_lights.
  apply reads_only_bind; [auto with reads|intros s].
  apply reads_only_bind.
  - destruct (pose s); [apply get_closest_light_reads|auto with reads].
  - intros [i|]; [|auto with reads].
    apply reads_only_bind; [auto with reads|intros light].
    apply reads_only_bind; [apply get_light_wp_reads|intros w].
    apply reads_only_bind; [apply get_light_state_reads|auto with reads].
Qed.

Lemma image_cb_unfold (msg : Image.t) (s : TLDetector) :
  let s1 := set_camera_image (Some msg) (set_has_image true s) in
  image_cb msg s =
  match fst (process_traffic_lights s1) with
  | Returned r => debounce (fst r) (snd r) s1
  | Raised e => (Raised e, s1)
  end.
Proof.
  cbn zeta. unfold image_cb, bind at 1 2 3, modify. cbn [fst snd].
  set (s1 := set_camera_image (Some msg) (set_has_image true s)).
  pose proof (process_traffic_lights_state s1 eq_refl) as Hs.
  destruct (process_traffic_lights s1) as [[r|e] s2]; cbn [fst snd] in *; now subst s2.
Qed.

Lemma last_repeat {A : Type} (a d : A) (k : nat) : last (repeat a (S k)) d = a.
Proof.
  revert d. induction k as [|k IH]; intros d; [reflexivity|].
  change (repeat a (S (S k))) with (a :: repeat a (S k)). now rewrite last_cons, IH.
Qed.

(** ** The claims on the debouncer *)

(** C1 (as the code has it): a colour that differs from the previous
    cycle's and is then observed on consecutive cycles leaves the stored
    decision alone on its first three occurrences, where only the stored
    waypoint is published (not at all on the first, once on the second and on
    the third); the fourth occurrence is the first to commit, and every later
    one commits again. *)
Theorem commit_on_fourth_occurrence (c : Z) (ws : list Z) (s : TLDetector) :
  state s <> c ->
  let s' := debounce_all (map (fun w => (w, c)) ws) s in
  ((length ws <= 3)%nat ->
     last_state s' = last_state s /\ last_wp s' = last_wp s /\
     upcoming_red_light_pub s' =
       upcoming_red_light_pub s ++ repeat (last_wp s) (length ws - 1)) /\
  ((4 <= length ws)%nat ->
     last_state s' = c /\ last_wp s' = stop_waypoint (last ws 0) c /\
     upcoming_red_light_pub s' =
       upcoming_red_light_pub s ++ [last_wp s; last_wp s]
         ++ map (fun w => stop_waypoint w c) (skipn 3 ws)).
Proof. exact (debounce_all_fresh c ws s). Qed.

Lemma commit_on_fourth_occurrence_witness :
  state node0 <> TrafficLight.RED /\
  last_state (debounce_all (map (fun w => (w, TrafficLight.RED)) [7; 7; 7; 7]) node0)
    = TrafficLight.RED /\
  last_wp (debounce_all (map (fun w => (w, TrafficLight.RED)) [7; 7; 7; 7]) node0) = 7.
Proof.
  split; [discriminate|].
  destruct (commit_on_fourth_occurrence TrafficLight.RED [7; 7; 7; 7] node0) as [_ H];
    [discriminate|].
  destruct H as (H1 & H2 & _); [cbn; lia|]. split; [exact H1|exact H2].
Defined.

(** C1, the claim as stated, fails: after RED, RED, GREEN, RED, RED, RED
    from the initial state the sixth sample has not committed RED; neither
    have three REDs in a row. *)
Lemma sixth_sample_does_not_commit :
  let RED := TrafficLight.RED in
  let GREEN := TrafficLight.GREEN in
  let s6 := debounce_all [(7, RED); (7, RED); (7, GREEN); (7, RED); (7, RED); (7, RED)]
              node0 in
  let s3 := debounce_all [(7, RED); (7, RED); (7, RED)] node0 in
  last_state s6 <> RED /\ last_wp s6 = -1 /\ upcoming_red_light_pub s6 = [-1; -1; -1] /\
  last_state s3 <> RED /\ last_wp s3 = -1 /\ upcoming_red_light_pub s3 = [-1; -1].
Proof. cbv zeta. repeat split; (discriminate || reflexivity). Qed.

(** What a cycle publishes.  When [process_traffic_lights] returns the
    colour of the cycle before, one value is published: the committed
    waypoint once the counter has reached the threshold, the stored waypoint
    before.  When it returns another colour the counter restarts, the stored
    waypoint stays and nothing is published; nor is anything when it raises. *)
Lemma image_cb_publishes_at_most_once (msg : Image.t) (s : TLDetector) :
  let s1 := set_camera_image (Some msg) (set_has_image true s) in
  let s' := snd (image_cb msg s) in
  match fst (process_traffic_lights s1) with
  | Raised e =>
      fst (image_cb msg s) = Raised e /\
      upcoming_red_light_pub s' = upcoming_red_light_pub s
  | Returned (light_wp, c) =>
      fst (image_cb msg s) = Returned tt /\
      if state s =? c then
        upcoming_red_light_pub s' =
          upcoming_red_light_pub s
            ++ [if STATE_COUNT_THRESHOLD <=? state_count s
                then stop_waypoint light_wp c else last_wp s]
      else
        upcoming_red_light_pub s' = upcoming_red_light_pub s /\
        last_wp s' = last_wp s /\ state_count s' = 1
  end.
Proof.
  cbv zeta. rewrite image_cb_unfold. cbv zeta.
  set (s1 := set_camera_image (Some msg) (set_has_image true s)).
  destruct (fst (process_traffic_lights s1)) as [[w c]|e]; [|split; reflexivity].
  cbn [fst snd]. split; [apply debounce_returns|].
  change (state s) with (state s1). change (state_count s) with (state_count s1).
  change (last_wp s) with (last_wp s1).
  change (upcoming_red_light_pub s) with (upcoming_red_light_pub s1).
  destruct (Z.eqb_spec (state s1) c) as [E|N].
  - destruct (Z.leb_spec STATE_COUNT_THRESHOLD (state_count s1)) as [Hle|Hlt].
    + now destruct (debounce_commit w c s1 E Hle) as (_ & _ & _ & _ & P).
    + now destruct (debounce_carry w c s1 E Hlt) as (_ & _ & _ & _ & P).
  - destruct (debounce_change w c s1 N) as (_ & C & _ & W & P). auto.
Qed.

(** C2, at the failing input: the index is built, a red light is ahead
    and the first frame arrives.  The colour differs from the initial UNKNOWN,
    so the cycle takes the first branch of [image_cb]: it returns and has
    published nothing, where the comment of [image_cb] has the node publish
    at camera frequency, the previous stable state as long as the new one is
    not used, as the two other branches do. *)
Lemma change_cycle_publishes_nothing :
  fst (image_cb frame ready_node) = Returned tt /\
  state ready_node <> TrafficLight.RED /\
  fst (process_traffic_lights (snd (image_cb frame ready_node)))
    = Returned (1, TrafficLight.RED) /\
  upcoming_red_light_pub ready_node = [] /\
  upcoming_red_light_pub (snd (image_cb frame ready_node)) = [].
Proof. repeat split; (discriminate || vm_compute; reflexivity). Qed.

(** C4: with RED the observed colour and [wp] the stored waypoint, one
    cycle on another colour [c] followed by any number of RED cycles on the
    same light publishes nothing but [wp] and keeps [wp] stored; and so do up
    to three cycles in a row on [c]. *)
Theorem red_stop_survives_flicker (s : TLDetector) (wp c : Z) :
  state s = TrafficLight.RED -> last_wp s = wp -> c <> TrafficLight.RED ->
  (forall (w1 : Z) (k : nat),
     let s' := debounce_all ((w1, c) :: repeat (wp, TrafficLight.RED) k) s in
     last_wp s' = wp /\
     upcoming_red_light_pub s' = upcoming_red_light_pub s ++ repeat wp (k - 1)) /\
  (forall ws : list Z, (length ws <= 3)%nat ->
     let s' := debounce_all (map (fun w => (w, c)) ws) s in
     last_wp s' = wp /\
     upcoming_red_light_pub s' = upcoming_red_light_pub s ++ repeat wp (length ws - 1)).
Proof.
  intros E W N. split.
  - intros w1 k. cbv zeta. rewrite debounce_all_cons. cbn [fst snd].
    destruct (debounce_change w1 c s) as (E1 & _ & _ & W1 & P1); [congruence|].
    set (s1 := snd (debounce w1 c s)) in *.
    assert (N1 : state s1 <> TrafficLight.RED) by congruence.
    pose proof (debounce_all_fresh TrafficLight.RED (repeat wp k) s1 N1) as H.
    cbv zeta in H. rewrite map_repeat, repeat_length, W1, P1, W in H.
    destruct H as [Hlow Hhigh].
    destruct (Nat.le_gt_cases k 3) as [Hk|Hk].
    + destruct (Hlow Hk) as (_ & HW & HP). auto.
    + destruct (Hhigh Hk) as (_ & HW & HP). rewrite HW, HP.
      do 4 (destruct k as [|k]; [lia|]). clear.
      rewrite last_repeat. cbn [skipn repeat app map Nat.sub].
      rewrite map_repeat. unfold stop_waypoint. cbn. auto.
  - intros ws Hk.
    assert (N0 : state s <> c) by congruence.
    destruct (debounce_all_fresh c ws s N0) as [Hlow _]. cbv zeta in *.
    destruct (Hlow Hk) as (_ & HW & HP). rewrite HW, HP, W. auto.
Qed.

(** The fourth cycle in a row on a colour other than RED is the one that
    clears the stored waypoint. *)
Lemma fourth_other_colour_clears (s : TLDetector) (c w1 w2 w3 w4 : Z) :
  state s <> c -> c <> TrafficLight.RED ->
  let s' := debounce_all [(w1, c); (w2, c); (w3, c); (w4, c)] s in
  last_wp s' = -1 /\
  upcoming_red_light_pub s' = upcoming_red_light_pub s ++ [last_wp s; last_wp s; -1].
Proof.
  intros N0 N.
  destruct (debounce_all_fresh c [w1; w2; w3; w4] s N0) as [_ H]. cbv zeta in *.
  cbn [map] in H. destruct H as (_ & HW & HP); [cbn; lia|]. rewrite HW, HP.
  unfold stop_waypoint. cbn. destruct (Z.eqb_spec c TrafficLight.RED); [contradiction|auto].
Qed.

Lemma red_stop_survives_flicker_witness :
  state committed_42 = TrafficLight.RED /\ last_wp committed_42 = 42 /\
  TrafficLight.GREEN <> TrafficLight.RED /\
  (forall (w1 : Z) (k : nat),
     let s' := debounce_all ((w1, TrafficLight.GREEN) :: repeat (42, TrafficLight.RED) k)
                 committed_42 in
     last_wp s' = 42 /\
     upcoming_red_light_pub s' = upcoming_red_light_pub committed_42 ++ repeat 42 (k - 1)) /\
  (forall ws : list Z, (length ws <= 3)%nat ->
     let s' := debounce_all (map (fun w => (w, TrafficLight.GREEN)) ws) committed_42 in
     last_wp s' = 42 /\
     upcoming_red_light_pub s' =
       upcoming_red_light_pub committed_42 ++ repeat 42 (length ws - 1)).
Proof.
  split; [reflexivity|]. split; [reflexivity|]. split; [discriminate|].
  apply (red_stop_survives_flicker committed_42 42 TrafficLight.GREEN);
    [reflexivity|reflexivity|discriminate].
Defined.

(** ** A cycle before the index is built *)

Lemma get_closest_light_eq (pose_arg : Pose.t) (s : TLDetector) (p : PoseStamped.t) :
  pose s = Some p ->
  get_closest_light pose_arg s = (Returned (nearest_ahead p (lights s)), s).
Proof.
  intros H. unfold get_closest_light, bind, get. now rewrite H.
Qed.

(** When no light is located the cycle's observation is [(-1, UNKNOWN)]. *)
Lemma process_traffic_lights_no_light (s : TLDetector) :
  (pose s = None \/ exists p, pose s = Some p /\ nearest_ahead p (lights s) = None) ->
  process_traffic_lights s = (Returned (-1, TrafficLight.UNKNOWN), s).
Proof.
  intros [H|(p & H & G)]; unfold process_traffic_lights, bind at 1 2, get;
    rewrite H; [reflexivity|].
  now rewrite (get_closest_light_eq _ s p H), G.
Qed.

(** When a light is located while [light_waypoints] is empty, the lookup
    of its waypoints raises and the cycle ends there, nothing published. *)
Lemma image_cb_unbuilt_index (msg : Image.t) (s : TLDetector) (p : PoseStamped.t) (i : Z) :
  pose s = Some p -> light_waypoints s = [] -> nearest_ahead p (lights s) = Some i ->
  fst (image_cb msg s) = Raised IndexError /\
  upcoming_red_light_pub (snd (image_cb msg s)) = upcoming_red_light_pub s.
Proof.
  intros Hp Hw Hc. rewrite image_cb_unfold. cbv zeta.
  set (s1 := set_camera_image (Some msg) (set_has_image true s)).
  assert (E : fst (process_traffic_lights s1) = Raised IndexError).
  { unfold process_traffic_lights, bind at 1 2, get.
    change (pose s1) with (pose s). rewrite Hp.
    rewrite (get_closest_light_eq _ s1 p Hp).
    change (lights s1) with (lights s). rewrite Hc.
    unfold bind at 1, lift. destruct (getitem (lights s) i) as [light|e] eqn:G.
    - unfold get_light_wp, bind, get, lift.
      change (light_waypoints s1) with (light_waypoints s).
      now rewrite Hw, getitem_nil.
    - now rewrite (getitem_raises _ _ _ G). }
  rewrite E. split; reflexivity.
Qed.

(** C3, at the failing input: the lights and the pose have arrived, a red
    light is ahead, the waypoints have not arrived and the index is not
    built.  The cycle raises [IndexError] and publishes nothing, where the
    claim has it complete with the sentinel. *)
Theorem cycle_before_index_raises :
  pose unindexed_node = Some car_at_origin /\
  lights unindexed_node = [light_at 1 0 0 TrafficLight.RED] /\
  light_indexed unindexed_node = false /\
  light_waypoints unindexed_node = [] /\
  fst (image_cb frame unindexed_node) = Raised IndexError /\
  upcoming_red_light_pub (snd (image_cb frame unindexed_node)) = [].
Proof. repeat split; vm_compute; reflexivity. Qed.

(** ** The stable sort *)

Section SortFacts.
Context {A : Type} (key : A -> Q) (earlier : A -> A -> Prop).

Lemma insert_by_perm (a : A) (l : list A) : Permutation (a :: l) (insert_by key a l).
Proof.
  induction l as [|b r IH]; cbn; [reflexivity|].
  destruct (Qle_bool (key a) (key b)); [reflexivity|].
  rewrite perm_swap. now constructor.
Qed.

Lemma sort_by_perm (l : list A) : Permutation l (sort_by key l).
Proof.
  induction l as [|a r IH]; cbn; [constructor|].
  rewrite <- insert_by_perm. now constructor.
Qed.

Lemma sorted_before_le (a b : A) : (sorted_before key earlier) a b -> (key a <= key b)%Q.
Proof.
  intros [H|[H _]]; [now apply Qlt_le_weak|]. rewrite H. apply Qle_refl.
Qed.

Lemma insert_by_sorted (a : A) (l : list A) :
  StronglySorted (sorted_before key earlier) l -> Forall (earlier a) l ->
  StronglySorted (sorted_before key earlier) (insert_by key a l).
Proof.
  induction l as [|b r IH]; intros Hs He; cbn.
  - repeat constructor.
  - apply StronglySorted_inv in Hs. destruct Hs as [Hr Hb].
    inversion He as [|? ? Hab Har]; subst.
    destruct (Qle_bool (key a) (key b)) eqn:E.
    + apply Qle_bool_iff in E.
      assert (Lab : (sorted_before key earlier) a b).
      { apply Qle_lteq in E. destruct E as [E|E]; [now left|now right]. }
      constructor; [now constructor|]. constructor; [exact Lab|].
      rewrite Forall_forall in *. intros x Hx.
      pose proof (sorted_before_le _ _ (Hb x Hx)) as Hbx.
      assert (Hax : (key a <= key x)%Q) by (eapply Qle_trans; eassumption).
      apply Qle_lteq in Hax. destruct Hax as [Hax|Hax]; [now left|right; auto].
    + assert (Hlt : (key b < key a)%Q).
      { apply Qnot_le_lt. intros H. apply Qle_bool_iff in H. congruence. }
      constructor; [now apply IH|].
      eapply Permutation_Forall; [apply insert_by_perm|].
      constructor; [now left|exact Hb].
Qed.

Lemma sort_by_sorted (l : list A) :
  StronglySorted earlier l -> StronglySorted (sorted_before key earlier) (sort_by key l).
Proof.
  induction l as [|a r IH]; intros Hs; cbn; [constructor|].
  apply StronglySorted_inv in Hs. destruct Hs as [Hr Ha].
  apply insert_by_sorted; [now apply IH|].
  eapply Permutation_Forall; [apply sort_by_perm|exact Ha].
Qed.

End SortFacts.

(** Sorting the images under [g] is sorting under the key composed with [g]. *)
Lemma sort_by_map {A B : Type} (key : B -> Q) (g : A -> B) (l : list A) :
  sort_by key (map g l) = map g (sort_by (fun a => key (g a)) l).
Proof.
  induction l as [|a r IH]; cbn; [reflexivity|]. rewrite IH.
  generalize (sort_by (fun a => key (g a)) r) as l. clear.
  induction l as [|b l IH]; cbn; [reflexivity|].
  destruct (Qle_bool (key (g a)) (key (g b))); cbn; [reflexivity|now rewrite IH].
Qed.

(** ** The route index *)

Lemma enumerate_distances (light : TrafficLight.t) (r pre : list Waypoint.t) :
  map (fun iw : Z * Waypoint.t =>
         (fst iw, sq_distance (position_of (TrafficLight.pose light))
                              (position_of (Waypoint.pose (snd iw)))))
      (combine (map Z.of_nat (seq (length pre) (length r))) r) =
  map (fun i => (i, distance_to light (pre ++ r) i))
      (map Z.of_nat (seq (length pre) (length r))).
Proof.
  revert pre. induction r as [|a r IH]; intros pre; [reflexivity|].
  cbn [length seq map combine fst snd]. f_equal.
  - unfold distance_to. rewrite Nat2Z.id, nth_error_app2, Nat.sub_diag by lia.
    reflexivity.
  - specialize (IH (pre ++ [a])).
    rewrite length_app, Nat.add_1_r, <- app_assoc in IH. exact IH.
Qed.

(** The indices [index_lights] stores for a light are all the waypoint
    indices, sorted on the distance to the light. *)
Lemma waypoint_indices_eq (wps : list Waypoint.t) (light : TrafficLight.t) :
  waypoint_indices wps light = sort_by (distance_to light wps) (all_indices wps).
Proof.
  unfold waypoint_indices, enumerate, all_indices. cbv zeta.
  pose proof (enumerate_distances light wps []) as E.
  cbn [app length] in E. rewrite E.
  rewrite (sort_by_map snd (fun i => (i, distance_to light wps i))), map_map.
  cbn [fst snd]. apply map_id.
Qed.

Lemma all_indices_sorted (wps : list Waypoint.t) : StronglySorted Z.lt (all_indices wps).
Proof.
  unfold all_indices. generalize 0%nat as k. generalize (length wps) as n.
  induction n as [|n IH]; intros k; cbn; constructor; [apply IH|].
  apply Forall_forall. intros x Hx. apply in_map_iff in Hx.
  destruct Hx as (j & <- & Hj). apply in_seq in Hj. lia.
Qed.

Lemma waypoint_indices_perm (wps : list Waypoint.t) (light : TrafficLight.t) :
  Permutation (waypoint_indices wps light) (all_indices wps).
Proof. rewrite waypoint_indices_eq. symmetry. apply sort_by_perm. Qed.

(** What the code computes for a light and a waypoint is the squared
    Euclidean distance between them. *)
Lemma sq_distance_euclidean (a b : Point.t) : (sq_distance a b == squared_euclidean a b)%Q.
Proof.
  unfold sq_distance, squared_euclidean. cbn [map fold_right]. ring.
Qed.

Lemma distance_to_euclidean (light : TrafficLight.t) (wps : list Waypoint.t) (i : Z) :
  (distance_to light wps i == euclidean_to light wps i)%Q.
Proof.
  unfold distance_to, euclidean_to. destruct (nth_error wps (Z.to_nat i)); [|reflexivity].
  apply sq_distance_euclidean.
Qed.

Lemma StronglySorted_impl {A : Type} (R R' : A -> A -> Prop) (l : list A) :
  (forall a b, R a b -> R' a b) -> StronglySorted R l -> StronglySorted R' l.
Proof.
  intros H. induction 1 as [|a l Hs IH Ha]; constructor; [exact IH|].
  eapply Forall_impl; [|exact Ha]. intros b. apply H.
Qed.

Lemma waypoint_indices_sorted (wps : list Waypoint.t) (light : TrafficLight.t) :
  StronglySorted (nearer light wps) (waypoint_indices wps light).
Proof.
  rewrite waypoint_indices_eq.
  apply (StronglySorted_impl (sorted_before (distance_to light wps) Z.lt)).
  - intros i k [H|[H Hik]]; [left|right; split; [|exact Hik]];
      now rewrite <- !distance_to_euclidean.
  - apply (sort_by_sorted (distance_to light wps) Z.lt), all_indices_sorted.
Qed.

(** The loop of [index_lights] appends one entry per light, in the order
    of the lights. *)
Lemma index_lights_loop (ls : list TrafficLight.t) :
  forall s,
  for_ ls (fun light =>
    s <- get ;;
    modify (set_light_waypoints
              (light_waypoints s ++ [waypoint_indices (waypoints s) light]))) s =
  (Returned tt,
   set_light_waypoints (light_waypoints s ++ map (waypoint_indices (waypoints s)) ls) s).
Proof.
  induction ls as [|light ls IH]; intros s.
  - cbn. rewrite app_nil_r. now destruct s.
  - cbn [for_ map]. unfold bind at 1. unfold bind at 1, get, modify.
    rewrite IH. cbn [light_waypoints waypoints set_light_waypoints].
    now rewrite <- app_assoc.
Qed.

Lemma index_lights_eq (s : TLDetector) :
  index_lights s =
  (Returned tt,
   set_light_indexed true
     (set_light_waypoints
        (light_waypoints s ++ map (waypoint_indices (waypoints s)) (lights s)) s)).
Proof.
  unfold index_lights. unfold bind at 1, get. unfold bind at 1.
  now rewrite index_lights_loop.
Qed.

(** C5: built on an empty table, the index has one entry per light, in
    the order of the lights; the entry of a light is a permutation of all the
    waypoint indices, in ascending order of the squared distance to the
    light, waypoints at one distance in the order of their indices. *)
Theorem index_lights_sorted_permutation (s : TLDetector) :
  light_waypoints s = [] ->
  let s' := snd (index_lights s) in
  fst (index_lights s) = Returned tt /\
  length (light_waypoints s') = length (lights s) /\
  forall (j : nat) (light : TrafficLight.t),
    nth_error (lights s) j = Some light ->
    exists way_points,
      nth_error (light_waypoints s') j = Some way_points /\
      Permutation way_points (all_indices (waypoints s)) /\
      StronglySorted (nearer light (waypoints s)) way_points.
Proof.
  intros H. rewrite index_lights_eq. cbn [fst snd]. cbn. rewrite H. cbn [app].
  split; [reflexivity|]. split; [apply length_map|].
  intros j light Hj. exists (waypoint_indices (waypoints s) light).
  split; [now rewrite nth_error_map, Hj|].
  split; [apply waypoint_indices_perm|apply waypoint_indices_sorted].
Qed.

Lemma index_lights_sorted_permutation_witness :
  light_waypoints waypoints_and_lights = [] /\
  let s' := snd (index_lights waypoints_and_lights) in
  fst (index_lights waypoints_and_lights) = Returned tt /\
  length (light_waypoints s') = length (lights waypoints_and_lights) /\
  forall (j : nat) (light : TrafficLight.t),
    nth_error (lights waypoints_and_lights) j = Some light ->
    exists way_points,
      nth_error (light_waypoints s') j = Some way_points /\
      Permutation way_points (all_indices (waypoints waypoints_and_lights)) /\
      StronglySorted (nearer light (waypoints waypoints_and_lights)) way_points.
Proof.
  split; [reflexivity|].
  apply (index_lights_sorted_permutation waypoints_and_lights). reflexivity.
Defined.

(** The light at [(1, 0, 0)] is at distance 0 of waypoint 1 and at one
    distance of waypoints 0 and 2, which keep their order. *)
Example index_of_ready_node :
  light_waypoints ready_node = [[1; 0; 2]] /\ light_indexed ready_node = true.
Proof. split; vm_compute; reflexivity. Qed.

(** ** What a cycle observes *)

Lemma bind_lift {A B : Type} (o : outcome A) (f : A -> M B) (s : TLDetector) :
  bind (lift o) f s = match o with Returned a => f a s | Raised e => (Raised e, s) end.
Proof. unfold bind, lift. now destruct o. Qed.

Lemma project_to_image_plane_eq (pt : Point.t) (s : TLDetector) :
  project_to_image_plane pt s =
  (and_then (camera_intrinsics (config s)) (fun _ => Returned (0, 0)), s).
Proof.
  unfold project_to_image_plane, camera_intrinsics. unfold bind at 1, get.
  repeat (rewrite bind_lift;
          match goal with |- context [dict_get ?d ?k] => destruct (dict_get d k) end;
          cbn [and_then]; [|reflexivity]).
  reflexivity.
Qed.

(** With a frame stored, the colour [get_light_state] returns is the
    [state] field of the light. *)
Lemma get_light_state_eq (light : TrafficLight.t) (s : TLDetector) (img : Image.t) :
  has_image s = true -> camera_image s = Some img ->
  get_light_state light s =
  (and_then (camera_intrinsics (config s)) (fun _ => Returned (TrafficLight.state light)), s).
Proof.
  intros Hh Hc. unfold get_light_state. unfold bind at 1, get. rewrite Hh, Hc.
  cbn [negb]. unfold bind at 1, ret at 1. unfold bind at 1.
  rewrite project_to_image_plane_eq.
  now destruct (camera_intrinsics (config s)).
Qed.

Lemma process_traffic_lights_eq (s : TLDetector) (img : Image.t) :
  has_image s = true -> camera_image s = Some img ->
  process_traffic_lights s = (observation s, s).
Proof.
  intros Hh Hc. unfold process_traffic_lights, observation. unfold bind at 1 2, get.
  destruct (pose s) as [p|] eqn:Hp; [|reflexivity].
  rewrite (get_closest_light_eq _ s p Hp).
  destruct (nearest_ahead p (lights s)) as [i|]; [|reflexivity].
  rewrite bind_lift. destruct (getitem (lights s) i) as [light|e]; [|reflexivity].
  cbn [and_then]. unfold bind at 1, get_light_wp. unfold bind at 1, get.
  rewrite bind_lift. destruct (getitem (light_waypoints s) i) as [wps|e]; [|reflexivity].
  cbn [and_then]. unfold lift at 1.
  destruct (getitem wps 0) as [w|e]; [|reflexivity].
  cbn [and_then]. unfold bind. rewrite (get_light_state_eq light s img Hh Hc).
  now destruct (camera_intrinsics (config s)).
Qed.

(** A cycle, as the debouncer run on the observation. *)
Lemma image_cb_eq (msg : Image.t) (s : TLDetector) :
  let s1 := set_camera_image (Some msg) (set_has_image true s) in
  image_cb msg s =
  match observation s with
  | Returned r => debounce (fst r) (snd r) s1
  | Raised e => (Raised e, s1)
  end.
Proof.
  cbv zeta. rewrite image_cb_unfold. cbv zeta.
  rewrite (process_traffic_lights_eq
             (set_camera_image (Some msg) (set_has_image true s)) msg eq_refl eq_refl).
  reflexivity.
Qed.

(** ** The frame and the colour *)

Lemma debounce_set_camera_image (light_wp c : Z) (v : option Image.t) (s : TLDetector) :
  debounce light_wp c (set_camera_image v s) =
  (fst (debounce light_wp c s), set_camera_image v (snd (debounce light_wp c s))).
Proof.
  unfold debounce, bind, get, modify, publish; cbn.
  destruct (state s =? c); cbn; [destruct (_ <=? _)|]; reflexivity.
Qed.

(** C9: the colour a cycle takes for the located light is the [state]
    field of that light, whatever the frame; two cycles run from one state on
    two frames end alike (both return or both raise the same exception),
    publish the same values and leave states that differ in the stored frame
    only. *)
Theorem colour_is_ground_truth (s : TLDetector) (img1 img2 : Image.t) :
  let start img := set_camera_image (Some img) (set_has_image true s) in
  (forall img p light_index light light_wp c,
     pose s = Some p -> nearest_ahead p (lights s) = Some light_index ->
     getitem (lights s) light_index = Returned light ->
     fst (process_traffic_lights (start img)) = Returned (light_wp, c) ->
     c = TrafficLight.state light) /\
  fst (process_traffic_lights (start img1)) = fst (process_traffic_lights (start img2)) /\
  fst (image_cb img1 s) = fst (image_cb img2 s) /\
  upcoming_red_light_pub (snd (image_cb img1 s))
    = upcoming_red_light_pub (snd (image_cb img2 s)) /\
  snd (image_cb img2 s) = set_camera_image (Some img2) (snd (image_cb img1 s)).
Proof.
  cbv zeta. split; [|split].
  - intros img p i light w c Hp Hn Hl.
    rewrite (process_traffic_lights_eq
               (set_camera_image (Some img) (set_has_image true s)) img eq_refl eq_refl).
    cbn [fst]. unfold observation.
    change (pose (set_camera_image (Some img) (set_has_image true s))) with (pose s).
    change (lights (set_camera_image (Some img) (set_has_image true s))) with (lights s).
    rewrite Hp, Hn, Hl. cbn [and_then].
    destruct (getitem (light_waypoints _) i) as [wps|e]; [|discriminate]. cbn [and_then].
    destruct (getitem wps 0) as [w'|e]; [|discriminate]. cbn [and_then].
    destruct (camera_intrinsics _); [|discriminate]. cbn [and_then]. congruence.
  - rewrite (process_traffic_lights_eq
               (set_camera_image (Some img1) (set_has_image true s)) img1 eq_refl eq_refl).
    rewrite (process_traffic_lights_eq
               (set_camera_image (Some img2) (set_has_image true s)) img2 eq_refl eq_refl).
    reflexivity.
  - rewrite !image_cb_eq. cbv zeta.
    destruct (observation s) as [[w c]|e]; cbn [fst snd]; [|auto].
    rewrite !debounce_returns.
    change (set_camera_image (Some img2) (set_has_image true s))
      with (set_camera_image (Some img2)
              (set_camera_image (Some img1) (set_has_image true s))).
    rewrite (debounce_set_camera_image w c (Some img2)). cbn [snd].
    repeat split.
Qed.

Lemma colour_is_ground_truth_witness :
  pose ready_node = Some car_at_origin /\
  nearest_ahead car_at_origin (lights ready_node) = Some 0 /\
  getitem (lights ready_node) 0 = Returned (light_at 1 0 0 TrafficLight.RED) /\
  fst (process_traffic_lights
         (set_camera_image (Some night_frame) (set_has_image true ready_node)))
    = Returned (1, TrafficLight.RED) /\
  TrafficLight.RED = TrafficLight.state (light_at 1 0 0 TrafficLight.RED) /\
  fst (image_cb frame ready_node) = fst (image_cb night_frame ready_node).
Proof.
  destruct (colour_is_ground_truth ready_node frame night_frame) as (H & _ & H' & _).
  do 4 (split; [vm_compute; reflexivity|]).
  split; [|exact H'].
  apply (H night_frame car_at_origin 0 (light_at 1 0 0 TrafficLight.RED) 1 TrafficLight.RED);
    vm_compute; reflexivity.
Defined.

(** ** The guarded build *)

Lemma waypoints_cb_eq (w : list Waypoint.t) (s : TLDetector) :
  waypoints_cb w s =
  let s1 := set_base_wp_sub false (set_waypoints w s) in
  if truthy w && truthy (lights s) && negb (light_indexed s)
  then index_lights s1 else (Returned tt, s1).
Proof.
  unfold waypoints_cb, bind, modify, get. cbn [fst snd waypoints lights light_indexed
    set_base_wp_sub set_waypoints].
  now destruct (truthy w && truthy (lights s) && negb (light_indexed s)).
Qed.

Lemma traffic_cb_eq (l : list TrafficLight.t) (s : TLDetector) :
  traffic_cb l s =
  let s1 := set_lights l s in
  if truthy (waypoints s) && truthy l && negb (light_indexed s)
  then index_lights s1 else (Returned tt, s1).
Proof.
  unfold traffic_cb, bind, modify, get. cbn [fst snd waypoints lights light_indexed
    set_lights].
  now destruct (truthy (waypoints s) && truthy l && negb (light_indexed s)).
Qed.

(** A cycle leaves the index and its flag alone. *)
Lemma image_cb_index (msg : Image.t) (s : TLDetector) :
  light_indexed (snd (image_cb msg s)) = light_indexed s /\
  light_waypoints (snd (image_cb msg s)) = light_waypoints s.
Proof.
  rewrite image_cb_eq. cbv zeta. destruct (observation s) as [[w c]|e]; [|now split].
  cbn [fst snd].
  destruct (debounce_frame w c (set_camera_image (Some msg) (set_has_image true s)))
    as (_ & _ & _ & _ & H1 & H2 & _).
  split; [exact H2|exact H1].
Qed.

(** A callback either leaves the index and its flag as they were or
    ends with the flag set. *)
Lemma after_builds_or_keeps (m : message) (s : TLDetector) :
  (light_indexed (after m s) = light_indexed s /\
   light_waypoints (after m s) = light_waypoints s) \/
  (light_indexed s = false /\ light_indexed (after m s) = true).
Proof.
  unfold after. destruct m as [p|w|l|img]; cbn [callback].
  - left. now split.
  - rewrite waypoints_cb_eq. cbv zeta.
    destruct (truthy w && truthy (lights s) && negb (light_indexed s)) eqn:G;
      [|left; now split].
    right. rewrite index_lights_eq. cbn [snd]. split; [|reflexivity].
    destruct (light_indexed s); [|reflexivity].
    rewrite andb_false_r in G. discriminate.
  - rewrite traffic_cb_eq. cbv zeta.
    destruct (truthy (waypoints s) && truthy l && negb (light_indexed s)) eqn:G;
      [|left; now split].
    right. rewrite index_lights_eq. cbn [snd]. split; [|reflexivity].
    destruct (light_indexed s); [|reflexivity].
    rewrite andb_false_r in G. discriminate.
  - left. apply image_cb_index.
Qed.

Lemma run_cons (m : message) (ms : list message) (s : TLDetector) :
  run (m :: ms) s = run ms (after m s).
Proof. reflexivity. Qed.

Lemma run_app (ms ms' : list message) (s : TLDetector) :
  run (ms ++ ms') s = run ms' (run ms s).
Proof. apply fold_left_app. Qed.

Lemma run_indexed (ms : list message) :
  forall s, light_indexed s = true ->
  light_indexed (run ms s) = true /\ light_waypoints (run ms s) = light_waypoints s.
Proof.
  induction ms as [|m ms IH]; intros s H; [now split|].
  rewrite run_cons.
  destruct (after_builds_or_keeps m s) as [[H1 H2]|[H1 _]]; [|congruence].
  rewrite <- H2. apply IH. congruence.
Qed.

(** C7: once the flag is set, [waypoints_cb] and [traffic_cb] store their
    message and do nothing else, and no sequence of messages resets the flag
    or changes the index; a callback that changes the index or the flag is
    one that started with the flag unset and set it, so there is at most one
    in the life of the node. *)
Theorem index_built_once (s : TLDetector) :
  (light_indexed s = true ->
     (forall w, waypoints_cb w s = (Returned tt, set_base_wp_sub false (set_waypoints w s))) /\
     (forall l, traffic_cb l s = (Returned tt, set_lights l s)) /\
     (forall ms, light_indexed (run ms s) = true /\
                 light_waypoints (run ms s) = light_waypoints s)) /\
  (forall m ms,
     light_indexed (after m s) <> light_indexed s \/
     light_waypoints (after m s) <> light_waypoints s ->
     light_indexed s = false /\
     light_indexed (run ms (after m s)) = true /\
     light_waypoints (run ms (after m s)) = light_waypoints (after m s)).
Proof.
  split.
  - intros H. repeat split.
    + intros w. rewrite waypoints_cb_eq. cbv zeta. now rewrite H, andb_false_r.
    + intros l. rewrite traffic_cb_eq. cbv zeta. now rewrite H, andb_false_r.
    + now apply run_indexed.
    + now apply run_indexed.
  - intros m ms Hc.
    destruct (after_builds_or_keeps m s) as [[H1 H2]|[H1 H2]];
      [destruct Hc; contradiction|].
    split; [exact H1|]. now apply run_indexed.
Qed.

Lemma index_built_once_witness :
  light_indexed ready_node = true /\
  light_indexed
    (run [base_waypoints []; traffic_lights [light_at 9 9 9 TrafficLight.GREEN];
          image_color frame] ready_node) = true /\
  light_waypoints
    (run [base_waypoints []; traffic_lights [light_at 9 9 9 TrafficLight.GREEN];
          image_color frame] ready_node) = light_waypoints ready_node.
Proof.
  split; [vm_compute; reflexivity|].
  destruct (index_built_once ready_node) as [H _].
  destruct H as (_ & _ & H); [vm_compute; reflexivity|]. apply H.
Defined.

Lemma run_empty_until_built (ms : list message) :
  forall s, empty_until_built s -> empty_until_built (run ms s).
Proof.
  induction ms as [|m ms IH]; intros s H; [exact H|].
  rewrite run_cons. apply IH. intros Hf.
  destruct (after_builds_or_keeps m s) as [[H1 H2]|[_ H2]]; [|congruence].
  rewrite H2. apply H. congruence.
Qed.

(** C8: as long as the index is not built, a light update that is empty
    or that finds no waypoints, and a waypoint update that is empty or that
    finds no lights, return without building: the message is stored, the
    table stays empty and the flag unset. *)
Theorem build_skipped_on_empty_input cfg br li (ms : list message) :
  let s := run ms (init cfg br li) in
  light_indexed s = false ->
  (forall l, l = [] \/ waypoints s = [] ->
     traffic_cb l s = (Returned tt, set_lights l s) /\
     light_waypoints (after (traffic_lights l) s) = [] /\
     light_indexed (after (traffic_lights l) s) = false) /\
  (forall w, w = [] \/ lights s = [] ->
     waypoints_cb w s = (Returned tt, set_base_wp_sub false (set_waypoints w s)) /\
     light_waypoints (after (base_waypoints w) s) = [] /\
     light_indexed (after (base_waypoints w) s) = false).
Proof.
  cbv zeta. set (s := run ms (init cfg br li)). intros Hf.
  assert (He : light_waypoints s = []).
  { apply (run_empty_until_built ms (init cfg br li)); [intros _; reflexivity|exact Hf]. }
  split.
  - intros l Hl.
    assert (E : traffic_cb l s = (Returned tt, set_lights l s)).
    { rewrite traffic_cb_eq. cbv zeta.
      destruct Hl as [ -> | -> ]; cbn [truthy andb]; [|reflexivity].
      now rewrite andb_false_r. }
    unfold after. cbn [callback]. rewrite E. auto.
  - intros w Hw.
    assert (E : waypoints_cb w s = (Returned tt, set_base_wp_sub false (set_waypoints w s))).
    { rewrite waypoints_cb_eq. cbv zeta.
      destruct Hw as [ -> | -> ]; cbn [truthy andb]; [reflexivity|].
      now rewrite andb_false_r. }
    unfold after. cbn [callback]. rewrite E. auto.
Qed.

Lemma build_skipped_on_empty_input_witness :
  light_indexed (run [current_pose car_at_origin] node0) = false /\
  light_waypoints
    (after (traffic_lights [light_at 1 0 0 TrafficLight.RED])
           (run [current_pose car_at_origin] node0)) = [] /\
  light_waypoints
    (after (base_waypoints route) (run [current_pose car_at_origin] node0)) = [].
Proof.
  split; [reflexivity|].
  destruct (build_skipped_on_empty_input camera_config (fun _ => []) None
              [current_pose car_at_origin]) as [Hl Hw]; [reflexivity|].
  split.
  - apply (Hl [light_at 1 0 0 TrafficLight.RED]). right. reflexivity.
  - apply (Hw route). right. reflexivity.
Defined.

(** Called on lights without waypoints, [index_lights] itself would store
    one empty entry per light and set the flag: the guard of the callbacks
    is what keeps the table empty. *)
Remark index_lights_without_waypoints :
  let s := set_lights [light_at 1 0 0 TrafficLight.RED] node0 in
  light_waypoints (snd (index_lights s)) = [[]] /\
  light_indexed (snd (index_lights s)) = true.
Proof. split; reflexivity. Qed.

(** ** The stored waypoint *)

Lemma getitem_returned {A : Type} (l : list A) (i : Z) (a : A) :
  getitem l i = Returned a -> exists n, nth_error l n = Some a.
Proof.
  unfold getitem. destruct (_ && _); [|discriminate].
  destruct (nth_error l _) as [b|] eqn:E; [|discriminate].
  intros [= <-]. eauto.
Qed.

Lemma getitem_head {A : Type} (l : list A) (a : A) :
  getitem l 0 = Returned a -> hd_error l = Some a.
Proof.
  destruct l as [|b l]; [now rewrite getitem_nil|].
  unfold getitem. cbn [Z.ltb Z.compare Z.to_nat nth_error hd_error].
  destruct (_ && _); congruence.
Qed.

(** The candidate waypoint of a cycle is the sentinel or heads the entry
    of the located light. *)
Lemma observation_waypoint (s : TLDetector) (light_wp c : Z) :
  observation s = Returned (light_wp, c) ->
  light_wp = -1 \/
  exists (i : nat) (way_points : list Z),
    nth_error (light_waypoints s) i = Some way_points /\
    hd_error way_points = Some light_wp.
Proof.
  unfold observation. destruct (pose s) as [p|]; [|intros [= <- _]; now left].
  destruct (nearest_ahead p (lights s)) as [i|]; [|intros [= <- _]; now left].
  destruct (getitem (lights s) i) as [light|e]; [|discriminate]. cbn [and_then].
  destruct (getitem (light_waypoints s) i) as [wps|e] eqn:G; [|discriminate].
  cbn [and_then]. destruct (getitem wps 0) as [w|e] eqn:G0; [|discriminate].
  cbn [and_then]. destruct (camera_intrinsics _); [|discriminate]. cbn [and_then].
  intros [= <- _]. right.
  destruct (getitem_returned _ _ _ G) as [n Hn]. exists n, wps.
  split; [exact Hn|now apply getitem_head].
Qed.

Lemma index_lights_frame (s : TLDetector) :
  last_wp (snd (index_lights s)) = last_wp s /\
  upcoming_red_light_pub (snd (index_lights s)) = upcoming_red_light_pub s /\
  exists more, light_waypoints (snd (index_lights s)) = light_waypoints s ++ more.
Proof. rewrite index_lights_eq. cbn. eauto. Qed.

(** The callbacks other than [image_cb] keep the stored waypoint, publish
    nothing and at most extend the table. *)
Lemma after_update_frame (m : message) (s : TLDetector) :
  (forall img, m <> image_color img) ->
  last_wp (after m s) = last_wp s /\
  upcoming_red_light_pub (after m s) = upcoming_red_light_pub s /\
  exists more, light_waypoints (after m s) = light_waypoints s ++ more.
Proof.
  intros Hm. unfold after. destruct m as [p|w|l|img]; cbn [callback].
  - cbn. repeat split. exists []. now rewrite app_nil_r.
  - rewrite waypoints_cb_eq. cbv zeta. destruct (_ && _).
    + apply (index_lights_frame (set_base_wp_sub false (set_waypoints w s))).
    + cbn. repeat split. exists []. now rewrite app_nil_r.
  - rewrite traffic_cb_eq. cbv zeta. destruct (_ && _).
    + apply (index_lights_frame (set_lights l s)).
    + cbn. repeat split. exists []. now rewrite app_nil_r.
  - now destruct (Hm img).
Qed.

Lemma stop_waypoint_cases (light_wp c : Z) :
  stop_waypoint light_wp c = -1 \/
  (stop_waypoint light_wp c = light_wp /\ c = TrafficLight.RED).
Proof.
  unfold stop_waypoint. destruct (Z.eqb_spec c TrafficLight.RED); auto.
Qed.

Lemma image_cb_keeps_or_commits (msg : Image.t) (s : TLDetector) :
  keeps_or_commits (image_color msg) s (snd (image_cb msg s)) /\
  (stored_waypoint_ok s -> stored_waypoint_ok (snd (image_cb msg s))).
Proof.
  destruct (image_cb_index msg s) as [_ Hidx].
  rewrite image_cb_eq in *. cbv zeta in *.
  set (s1 := set_camera_image (Some msg) (set_has_image true s)) in *.
  destruct (observation s) as [[w c]|e] eqn:Ho; cbn [fst snd] in *.
  2:{ split; [left; split; [reflexivity|now left]|auto]. }
  unfold keeps_or_commits, stored_waypoint_ok. rewrite Hidx.
  change (state s) with (state s1). change (state_count s) with (state_count s1).
  change (last_wp s) with (last_wp s1).
  change (upcoming_red_light_pub s) with (upcoming_red_light_pub s1).
  destruct (Z.eq_dec (state s1) c) as [E|N].
  - destruct (Z_lt_le_dec (state_count s1) STATE_COUNT_THRESHOLD) as [Hlt|Hle].
    + destruct (debounce_carry w c s1 E Hlt) as (_ & _ & _ & W & P).
      rewrite W, P. split; [left; auto|auto].
    + destruct (debounce_commit w c s1 E Hle) as (E' & _ & L & W & P).
      rewrite W, P, L, E'. split.
      * right. repeat split; eauto; try congruence.
        intros Hn. destruct (stop_waypoint_cases w c) as [H|[_ H]]; congruence.
      * intros _. destruct (stop_waypoint_cases w c) as [H|[H _]]; [now left|].
        rewrite H. now apply observation_waypoint with (c := c).
  - destruct (debounce_change w c s1 N) as (_ & _ & _ & W & P).
    rewrite W, P. split; [left; auto|auto].
Qed.

Lemma after_keeps_or_commits (m : message) (s : TLDetector) :
  keeps_or_commits m s (after m s) /\
  (stored_waypoint_ok s -> stored_waypoint_ok (after m s)).
Proof.
  destruct m as [p|w|l|img];
    try (apply image_cb_keeps_or_commits);
    match goal with
    | |- context [after ?m s] =>
        destruct (after_update_frame m s) as (W & P & more & I); [discriminate|]
    end;
    (split; [left; split; [exact W|now left]|]);
    unfold stored_waypoint_ok; rewrite W, I;
    (intros [H|(i & wps & Hi & Hh)]; [now left|right]);
    exists i, wps; (split; [|exact Hh]);
    rewrite nth_error_app1; [exact Hi|apply nth_error_Some; congruence
                            |exact Hi|apply nth_error_Some; congruence
                            |exact Hi|apply nth_error_Some; congruence].
Qed.

Lemma run_stored_waypoint_ok (ms : list message) :
  forall s, stored_waypoint_ok s -> stored_waypoint_ok (run ms s).
Proof.
  induction ms as [|m ms IH]; intros s H; [exact H|].
  rewrite run_cons. apply IH. now apply after_keeps_or_commits.
Qed.

(** In every state the node reaches, the stored waypoint is the sentinel
    or the head of an entry of the table, and a callback keeps it or commits. *)
Lemma stored_waypoint_invariant cfg br li (ms : list message) :
  let s := run ms (init cfg br li) in
  stored_waypoint_ok s /\
  forall m, keeps_or_commits m s (after m s).
Proof.
  cbv zeta. split.
  - apply run_stored_waypoint_ok. now left.
  - intros m. apply after_keeps_or_commits.
Qed.

(** ** The heading of the car *)

(** What the code takes for the heading is the axis rotated by the inverse
    of the orientation: the row vector times the matrix is the matrix
    transposed times the vector. *)
Lemma ego_dir_is_inverse_rotation (q : Quaternion.t) :
  (tf_transformations._EPS <= quat_norm_sq q)%Q ->
  vec_eq (ego_dir_of q) (forward_direction (conjugate q)).
Proof.
  intros H. destruct q as [x y z w].
  unfold quat_norm_sq in H. cbn [Quaternion.x Quaternion.y Quaternion.z Quaternion.w] in H.
  assert (Hn : ~ (x * x + y * y + z * z + w * w == 0)%Q).
  { intros E. rewrite E in H. revert H. vm_compute. intros H. now apply H. }
  assert (Hb : Qlt_bool (x * x + (y * y + (z * z + (w * w + 0))))
                 tf_transformations._EPS = false).
  { apply negb_false_iff, Qle_bool_iff. eapply Qle_trans; [exact H|].
    apply Qle_lteq. right. ring. }
  unfold ego_dir_of, tf_transformations.quaternion_matrix, np.dot.
  cbn [zip_with fold_right Quaternion.x Quaternion.y Quaternion.z Quaternion.w].
  rewrite Hb.
  unfold forward_direction, rotate_by, conjugate, hamilton, quat_norm_sq, np.matmul.
  cbn [nth combine fold_right firstn zip_with map repeat length hd fst snd
       Quaternion.x Quaternion.y Quaternion.z Quaternion.w].
  repeat constructor; field; intros E; apply Hn; rewrite <- E; ring.
Qed.

(** The rotation matrix of the library applied to the axis, that is its
    first column, is the axis rotated by the orientation. *)
Lemma first_column_is_rotation (q : Quaternion.t) :
  (tf_transformations._EPS <= quat_norm_sq q)%Q ->
  vec_eq (map (fun row => nth 0 row 0%Q)
              (firstn 3 (tf_transformations.quaternion_matrix
                           [Quaternion.x q; Quaternion.y q; Quaternion.z q; Quaternion.w q])))
         (forward_direction q).
Proof.
  intros H. destruct q as [x y z w].
  unfold quat_norm_sq in H. cbn [Quaternion.x Quaternion.y Quaternion.z Quaternion.w] in H.
  assert (Hn : ~ (x * x + y * y + z * z + w * w == 0)%Q).
  { intros E. rewrite E in H. revert H. vm_compute. intros H. now apply H. }
  assert (Hb : Qlt_bool (x * x + (y * y + (z * z + (w * w + 0))))
                 tf_transformations._EPS = false).
  { apply negb_false_iff, Qle_bool_iff. eapply Qle_trans; [exact H|].
    apply Qle_lteq. right. ring. }
  unfold tf_transformations.quaternion_matrix, np.dot.
  cbn [zip_with fold_right Quaternion.x Quaternion.y Quaternion.z Quaternion.w].
  rewrite Hb.
  unfold forward_direction, rotate_by, conjugate, hamilton, quat_norm_sq.
  cbn [nth firstn map Quaternion.x Quaternion.y Quaternion.z Quaternion.w].
  repeat constructor; field; intros E; apply Hn; rewrite <- E; ring.
Qed.

(** ** The nearest light ahead *)

Section Locator.
Variables (ego_pos ego_dir : list Q).

Lemma closest_step_nearest (pre : list TrafficLight.t) (a : TrafficLight.t)
    (acc : option Q * option Z) :
  nearest_so_far ego_pos ego_dir pre acc ->
  nearest_so_far ego_pos ego_dir (pre ++ [a])
    (closest_step ego_pos ego_dir acc (Z.of_nat (length pre), a)).
Proof.
  intros Inv. unfold closest_step. cbn [fst snd].
  fold (ahead ego_pos ego_dir a). fold (distance_sq ego_pos a).
  destruct (ahead ego_pos ego_dir a) eqn:Ha.
  - destruct acc as [[d|] [i|]]; cbn [fst lt_min_dist nearest_so_far] in *;
      try contradiction.
    + destruct Inv as (n & light & -> & Hn & Hl & -> & Hmin).
      assert (Hlen : (n < length pre)%nat) by (apply nth_error_Some; congruence).
      destruct (Qlt_bool (distance_sq ego_pos a) (distance_sq ego_pos light)) eqn:Hlt.
      * assert (Hlt' : (distance_sq ego_pos a < distance_sq ego_pos light)%Q).
        { apply Qnot_le_lt. intros H. apply Qle_bool_iff in H.
          unfold Qlt_bool in Hlt. rewrite H in Hlt. discriminate. }
        exists (length pre), a. repeat split.
        -- now rewrite nth_error_app2, Nat.sub_diag by lia.
        -- exact Ha.
        -- destruct (Nat.lt_ge_cases m (length pre)) as [Hm|Hm].
           ++ rewrite nth_error_app1 in H by exact Hm.
              apply Qlt_le_weak. eapply Qlt_le_trans; [exact Hlt'|]. now apply (Hmin m).
           ++ rewrite nth_error_app2 in H by exact Hm.
              destruct (m - length pre)%nat as [|k]; cbn in H;
                [injection H as <-; apply Qle_refl|now destruct k].
        -- intros Hm. rewrite nth_error_app1 in H by exact Hm.
           eapply Qlt_le_trans; [exact Hlt'|]. now apply (Hmin m).
      * assert (Hge : (distance_sq ego_pos light <= distance_sq ego_pos a)%Q).
        { apply Qle_bool_iff. unfold Qlt_bool in Hlt. now apply negb_false_iff in Hlt. }
        exists n, light. repeat split; auto.
        -- now rewrite nth_error_app1.
        -- destruct (Nat.lt_ge_cases m (length pre)) as [Hm|Hm].
           ++ rewrite nth_error_app1 in H by exact Hm. now apply (Hmin m).
           ++ rewrite nth_error_app2 in H by exact Hm.
              destruct (m - length pre)%nat as [|k]; cbn in H;
                [injection H as <-; exact Hge|now destruct k].
        -- intros Hm. rewrite nth_error_app1 in H by lia. now apply (Hmin m).
    + exists (length pre), a. repeat split.
      * now rewrite nth_error_app2, Nat.sub_diag by lia.
      * exact Ha.
      * destruct (Nat.lt_ge_cases m (length pre)) as [Hm|Hm].
        -- rewrite nth_error_app1 in H by exact Hm.
           apply nth_error_In in H. rewrite (Inv _ H) in H0. discriminate.
        -- rewrite nth_error_app2 in H by exact Hm.
           destruct (m - length pre)%nat as [|k]; cbn in H;
             [injection H as <-; apply Qle_refl|now destruct k].
      * intros Hm. rewrite nth_error_app1 in H by exact Hm.
        apply nth_error_In in H. rewrite (Inv _ H) in H0. discriminate.
  - destruct acc as [[d|] [i|]]; cbn [nearest_so_far] in *; try contradiction.
    + destruct Inv as (n & light & -> & Hn & Hl & -> & Hmin).
      assert (Hlen : (n < length pre)%nat) by (apply nth_error_Some; congruence).
      exists n, light. repeat split; auto.
      * now rewrite nth_error_app1.
      * destruct (Nat.lt_ge_cases m (length pre)) as [Hm|Hm].
        -- rewrite nth_error_app1 in H by exact Hm. now apply (Hmin m).
        -- rewrite nth_error_app2 in H by exact Hm.
           destruct (m - length pre)%nat as [|k]; cbn in H;
             [injection H as <-; congruence|now destruct k].
      * intros Hm. rewrite nth_error_app1 in H by lia. now apply (Hmin m).
    + intros light Hin. apply in_app_or in Hin.
      destruct Hin as [Hin|[<-|[]]]; [now apply Inv|exact Ha].
Qed.

Lemma closest_loop_nearest (r : list TrafficLight.t) :
  forall (pre : list TrafficLight.t) (acc : option Q * option Z),
  nearest_so_far ego_pos ego_dir pre acc ->
  nearest_so_far ego_pos ego_dir (pre ++ r)
    (fold_left (closest_step ego_pos ego_dir)
               (combine (map Z.of_nat (seq (length pre) (length r))) r) acc).
Proof.
  induction r as [|a r IH]; intros pre acc Inv; [now rewrite app_nil_r|].
  cbn [length seq map combine fold_left].
  specialize (IH (pre ++ [a]) _ (closest_step_nearest pre a acc Inv)).
  rewrite length_app, Nat.add_1_r, <- app_assoc in IH. exact IH.
Qed.

End Locator.

(** The light [get_closest_light] returns: none if no light is ahead of
    the direction the code takes for the heading, else the first of the
    nearest lights ahead. *)
Lemma nearest_ahead_spec (p : PoseStamped.t) (ls : list TrafficLight.t) :
  let ego_pos := point_array (position_of p) in
  let ego_dir := ego_dir_of (Pose.orientation (PoseStamped.pose p)) in
  match nearest_ahead p ls with
  | None => forall light, In light ls -> ahead ego_pos ego_dir light = false
  | Some i =>
      exists (n : nat) (light : TrafficLight.t),
        i = Z.of_nat n /\ nth_error ls n = Some light /\
        ahead ego_pos ego_dir light = true /\
        forall (m : nat) (light' : TrafficLight.t),
          nth_error ls m = Some light' -> ahead ego_pos ego_dir light' = true ->
          (distance_sq ego_pos light <= distance_sq ego_pos light')%Q /\
          ((m < n)%nat -> (distance_sq ego_pos light < distance_sq ego_pos light')%Q)
  end.
Proof.
  cbv zeta. unfold nearest_ahead, enumerate.
  pose proof (closest_loop_nearest (point_array (position_of p))
                (ego_dir_of (Pose.orientation (PoseStamped.pose p))) ls [] (None, None)) as H.
  cbn [app length] in H.
  destruct (fold_left _ _ _) as [[d|] [i|]]; cbn [snd nearest_so_far] in *.
  - destruct H as (n & light & Hi & Hn & Ha & _ & Hmin); [intros ? []|]. eauto 8.
  - destruct H; intros ? [].
  - destruct H; intros ? [].
  - apply H. intros ? [].
Qed.

(** C6, at the failing input: the car at the origin, turned left by the
    unit quaternion [(0, 0, 3/5, 4/5)], and one red light at [(0, 5, 0)]. The
    axis rotated by the orientation is [(7/25, 24/25, 0)] and the light is
    ahead of it; the code takes [(7/25, -24/25, 0)] for the heading, finds no
    light ahead and observes [(-1, UNKNOWN)].  The same light placed behind
    the car, at [(0, -5, 0)], is the one it locates. *)
Theorem forward_light_missed :
  let ego_pos := point_array (position_of car_heading_left) in
  let light_pos (l : TrafficLight.t) := point_array (position_of (TrafficLight.pose l)) in
  let in_front := light_at 0 5 0 TrafficLight.RED in
  let behind := light_at 0 (-5) 0 TrafficLight.RED in
  (quat_norm_sq heading_left == 1)%Q /\
  vec_eq (forward_direction heading_left) [7 # 25; 24 # 25; 0]%Q /\
  vec_eq (ego_dir_of heading_left) [7 # 25; - (24 # 25); 0]%Q /\
  (0 < np.dot (forward_direction heading_left) (np.sub (light_pos in_front) ego_pos))%Q /\
  nearest_ahead car_heading_left [in_front] = None /\
  fst (process_traffic_lights (after (image_color frame) left_turn_node))
    = Returned (-1, TrafficLight.UNKNOWN) /\
  (np.dot (forward_direction heading_left) (np.sub (light_pos behind) ego_pos) < 0)%Q /\
  nearest_ahead car_heading_left [behind] = Some 0.
Proof.
  cbv zeta. unfold vec_eq.
  repeat split; try (vm_compute; reflexivity); vm_compute; repeat constructor.
Qed.

(** ** The stored waypoint and the light located *)

Lemma getitem_of_nat {A : Type} (l : list A) (n : nat) (a : A) :
  getitem l (Z.of_nat n) = Returned a -> nth_error l n = Some a.
Proof.
  unfold getitem. destruct (Z.ltb_spec (Z.of_nat n) 0) as [?|_]; [lia|].
  destruct (_ && _); [|discriminate]. rewrite Nat2Z.id.
  destruct (nth_error l n); congruence.
Qed.

Lemma nearest_ahead_index (p : PoseStamped.t) (ls : list TrafficLight.t) (i : Z) :
  nearest_ahead p ls = Some i -> exists n : nat, i = Z.of_nat n.
Proof.
  intros H. pose proof (nearest_ahead_spec p ls) as S. cbv zeta in S. rewrite H in S.
  destruct S as (n & light & Hi & _). eauto.
Qed.

(** The observation of a cycle is [(-1, UNKNOWN)], no light located, or
    the head of the entry of the light located and the colour of that light. *)
Lemma observation_light (s : TLDetector) (light_wp c : Z) :
  observation s = Returned (light_wp, c) ->
  (light_wp = -1 /\ c = TrafficLight.UNKNOWN) \/
  exists (n : nat) (light : TrafficLight.t) (way_points : list Z),
    locates s n light way_points /\ TrafficLight.state light = c /\
    hd_error way_points = Some light_wp.
Proof.
  unfold observation. destruct (pose s) as [p|] eqn:Hp; [|intros [= <- <-]; now left].
  destruct (nearest_ahead p (lights s)) as [i|] eqn:Hn; [|intros [= <- <-]; now left].
  destruct (nearest_ahead_index _ _ _ Hn) as [n ->].
  destruct (getitem (lights s) (Z.of_nat n)) as [light|e] eqn:G1; [|discriminate].
  cbn [and_then].
  destruct (getitem (light_waypoints s) (Z.of_nat n)) as [wps|e] eqn:G2; [|discriminate].
  cbn [and_then]. destruct (getitem wps 0) as [w|e] eqn:G0; [|discriminate].
  cbn [and_then]. destruct (camera_intrinsics _); [|discriminate]. cbn [and_then].
  intros [= <- <-]. right. exists n, light, wps.
  split; [|split; [reflexivity|now apply getitem_head]].
  exists p. repeat split; auto using getitem_of_nat.
Qed.

Lemma image_cb_stores (msg : Image.t) (s : TLDetector) :
  stores_on_red_commit (image_color msg) s (snd (image_cb msg s)).
Proof.
  unfold stores_on_red_commit.
  assert (R : forall r, observation s = Returned r -> fst (image_cb msg s) = Returned tt).
  { intros r Hr. rewrite image_cb_eq. cbv zeta. rewrite Hr. apply debounce_returns. }
  rewrite image_cb_eq. cbv zeta.
  set (s1 := set_camera_image (Some msg) (set_has_image true s)).
  destruct (observation s) as [[w c]|e] eqn:Ho; cbn [fst snd];
    [|left; split; [reflexivity|now left]].
  specialize (R _ eq_refl).
  change (state s) with (state s1). change (state_count s) with (state_count s1).
  change (last_wp s) with (last_wp s1).
  change (upcoming_red_light_pub s) with (upcoming_red_light_pub s1).
  destruct (Z.eq_dec (state s1) c) as [E|N].
  - destruct (Z_lt_le_dec (state_count s1) STATE_COUNT_THRESHOLD) as [Hlt|Hle].
    + destruct (debounce_carry w c s1 E Hlt) as (_ & _ & _ & W & P).
      rewrite W, P. left. auto.
    + destruct (debounce_commit w c s1 E Hle) as (_ & _ & L & W & P).
      rewrite W, P, L. right.
      split; [exists msg; split; [reflexivity|exact R]|].
      split; [exact Hle|]. split; [now rewrite E|]. split; [reflexivity|].
      destruct (stop_waypoint_cases w c) as [H|[H Hc]]; [now left|].
      rewrite H. destruct (observation_light _ _ _ Ho) as [[Hw _]|(n & light & wps & Hl & Hs & Hh)];
        [now left|].
      right. exists n, wps. split; [|exact Hh].
      exists light. split; [exact Hl|]. split; [congruence|].
      split; [change (state s) with (state s1); congruence|exact Hle].
  - destruct (debounce_change w c s1 N) as (_ & _ & _ & W & P).
    rewrite W, P. left. auto.
Qed.

Lemma after_stores (m : message) (s : TLDetector) :
  stores_on_red_commit m s (after m s).
Proof.
  destruct m as [p|w|l|img]; try apply image_cb_stores;
    match goal with
    | |- context [after ?m s] =>
        destruct (after_update_frame m s) as (W & P & _); [discriminate|]
    end;
    left; split; [exact W|now left|exact W|now left|exact W|now left].
Qed.

(** A callback at most extends the table. *)
Lemma after_table_extends (m : message) (s : TLDetector) :
  exists more, light_waypoints (after m s) = light_waypoints s ++ more.
Proof.
  destruct m as [p|w|l|img];
    try (apply after_update_frame; discriminate).
  exists []. rewrite app_nil_r. apply image_cb_index.
Qed.

Lemma run_snoc (ms : list message) (m : message) (s : TLDetector) :
  run (ms ++ [m]) s = after m (run ms s).
Proof. now rewrite run_app. Qed.

Lemma run_stored_by_red_commit (s0 : TLDetector) (ms : list message) :
  last_wp s0 = -1 -> stored_by_red_commit s0 ms.
Proof.
  intros H0. unfold stored_by_red_commit.
  induction ms as [|m ms IH] using rev_ind; [now left|].
  rewrite run_snoc. set (s := run ms s0) in *.
  destruct (after_table_extends m s) as [more Ht].
  destruct (after_stores m s) as [[W _]|((img & -> & R) & _ & _ & _ & [W|(n & wps & C & Hh)])].
  - rewrite W. destruct IH as [IH|(ms1 & img & ms2 & n & wps & -> & C & R & Hn & Hh)];
      [now left|right].
    exists ms1, img, (ms2 ++ [m]), n, wps.
    split; [now rewrite <- app_assoc|]. split; [exact C|]. split; [exact R|].
    split; [|exact Hh]. rewrite Ht, nth_error_app1; [exact Hn|].
    apply nth_error_Some. congruence.
  - now left.
  - right. exists ms, img, [], n, wps.
    split; [reflexivity|]. split; [exact C|]. split; [exact R|]. split; [|exact Hh].
    destruct C as (light & (p & _ & _ & _ & Hn) & _).
    rewrite Ht, nth_error_app1; [exact Hn|]. apply nth_error_Some. congruence.
Qed.

(** C10: in every state the node reaches from its start, the stored
    waypoint is the sentinel, or an earlier cycle committed RED for the light
    it located and the stored waypoint is the first element of the entry of
    that light in the table; and a callback that stores a waypoint is a cycle
    that commits and publishes what it stores, which is the sentinel unless
    the cycle commits RED for the light it locates, and then the first element
    of the entry of that light. *)
Theorem stored_waypoint_of_located_light cfg br li (ms : list message) :
  let s := run ms (init cfg br li) in
  stored_by_red_commit (init cfg br li) ms /\
  forall m, stores_on_red_commit m s (after m s).
Proof.
  cbv zeta. split.
  - now apply run_stored_by_red_commit.
  - intros m. apply after_stores.
Qed.

(** The index built, a red light ahead at index 0 and four frames: the
    fourth cycle commits RED for that light and stores the head of its
    entry. *)
Example stored_after_four_frames :
  let before := run (map image_color [frame; frame; frame]) ready_node in
  commits_red before 0 [1; 0; 2] /\
  last_wp (after (image_color frame) before) = 1 /\
  nth_error (light_waypoints (after (image_color frame) before)) 0 = Some [1; 0; 2].
Proof.
  cbv zeta. split; [|split; vm_compute; reflexivity].
  exists (light_at 1 0 0 TrafficLight.RED). split.
  - exists car_at_origin. repeat split; vm_compute; reflexivity.
  - repeat split; vm_compute; (reflexivity || discriminate).
Qed.

(** * Further properties of the node *)

(** ** The entries of the configuration *)

Lemma dict_get_raises {V : Type} (d : list (string * V)) (k : string) (e : exn) :
  dict_get d k = Raised e -> e = KeyError.
Proof.
  induction d as [|[k' v] d IH]; cbn; [congruence|].
  destruct (String.eqb k k'); [discriminate|exact IH].
Qed.

Lemma camera_intrinsics_raises (cfg : list (string * list (string * Z))) (e : exn) :
  camera_intrinsics cfg = Raised e -> e = KeyError.
Proof.
  unfold camera_intrinsics.
  repeat match goal with
         | |- context [dict_get ?d ?k] =>
             let E := fresh "E" in
             destruct (dict_get d k) eqn:E; cbn [and_then];
             [|intros [= <-]; exact (dict_get_raises _ _ _ E)]
         end.
  discriminate.
Qed.

Lemma camera_intrinsics_cases (cfg : list (string * list (string * Z))) :
  camera_intrinsics cfg = Returned tt \/ camera_intrinsics cfg = Raised KeyError.
Proof.
  destruct (camera_intrinsics cfg) as [[]|e] eqn:E; [now left|right].
  now rewrite (camera_intrinsics_raises _ _ E).
Qed.

(** ** Lookups in and out of range *)

Lemma getitem_in_range {A : Type} (l : list A) (n : nat) (a : A) :
  nth_error l n = Some a -> getitem l (Z.of_nat n) = Returned a.
Proof.
  intros H. assert (Hn : (n < length l)%nat) by (apply nth_error_Some; congruence).
  unfold getitem.
  destruct (Z.ltb_spec (Z.of_nat n) 0) as [?|_]; [lia|].
  destruct (Z.leb_spec 0 (Z.of_nat n)) as [_|?]; [|lia].
  destruct (Z.ltb_spec (Z.of_nat n) (Z.of_nat (length l))) as [_|?]; [|lia].
  cbn [andb]. now rewrite Nat2Z.id, H.
Qed.

Lemma getitem_out_of_range {A : Type} (l : list A) (i : Z) :
  Z.of_nat (length l) <= i -> getitem l i = Raised IndexError.
Proof.
  intros H. unfold getitem.
  destruct (Z.ltb_spec i 0) as [?|_]; [lia|].
  destruct (Z.ltb_spec i (Z.of_nat (length l))) as [?|_]; [lia|].
  now rewrite andb_false_r.
Qed.

Lemma getitem_cons_0 {A : Type} (a : A) (l : list A) : getitem (a :: l) 0 = Returned a.
Proof. exact (getitem_in_range (a :: l) 0 a eq_refl). Qed.

(** The light located is one of the list. *)
Lemma nearest_ahead_in_range (p : PoseStamped.t) (ls : list TrafficLight.t) (i : Z) :
  nearest_ahead p ls = Some i ->
  exists (n : nat) (light : TrafficLight.t), i = Z.of_nat n /\ nth_error ls n = Some light.
Proof.
  intros H. pose proof (nearest_ahead_spec p ls) as S. cbv zeta in S. rewrite H in S.
  destruct S as (n & light & Hi & Hn & _). eauto.
Qed.

(** X3: the table is not extended when the list of lights grows: a cycle
    that locates a light whose index is beyond the table raises [IndexError]
    and publishes nothing. *)
Theorem image_cb_beyond_table (msg : Image.t) (s : TLDetector) (p : PoseStamped.t) (i : Z) :
  pose s = Some p -> nearest_ahead p (lights s) = Some i ->
  Z.of_nat (length (light_waypoints s)) <= i ->
  fst (image_cb msg s) = Raised IndexError /\
  upcoming_red_light_pub (snd (image_cb msg s)) = upcoming_red_light_pub s.
Proof.
  intros Hp Hn Hi. rewrite image_cb_eq. cbv zeta.
  assert (E : observation s = Raised IndexError).
  { unfold observation. rewrite Hp, Hn.
    destruct (getitem (lights s) i) as [light|e] eqn:G; cbn [and_then].
    - now rewrite (getitem_out_of_range _ _ Hi).
    - now rewrite (getitem_raises _ _ _ G). }
  rewrite E. split; reflexivity.
Qed.

Lemma image_cb_beyond_table_witness :
  pose second_light_node = Some car_at_origin /\
  nearest_ahead car_at_origin (lights second_light_node) = Some 1 /\
  Z.of_nat (length (light_waypoints second_light_node)) <= 1 /\
  light_indexed second_light_node = true /\
  fst (image_cb frame second_light_node) = Raised IndexError /\
  upcoming_red_light_pub (snd (image_cb frame second_light_node))
    = upcoming_red_light_pub second_light_node.
Proof.
  assert (H1 : pose second_light_node = Some car_at_origin) by reflexivity.
  assert (H2 : nearest_ahead car_at_origin (lights second_light_node) = Some 1)
    by (vm_compute; reflexivity).
  assert (H3 : Z.of_nat (length (light_waypoints second_light_node)) <= 1)
    by (vm_compute; discriminate).
  split; [exact H1|]. split; [exact H2|]. split; [exact H3|].
  split; [vm_compute; reflexivity|].
  exact (image_cb_beyond_table frame second_light_node car_at_origin 1 H1 H2 H3).
Defined.

(** X4: [project_to_image_plane] answers [(0, 0)] for every point and
    every answer of the transform listener, or raises [KeyError] when one of
    the camera entries is missing from the configuration; with an entry
    missing, every cycle that locates a light and finds its waypoint raises
    [KeyError] and publishes nothing. *)
Theorem missing_camera_entry (msg : Image.t) (s : TLDetector) (p : PoseStamped.t) (i : Z) :
  (forall pt, project_to_image_plane pt s = (Returned (0, 0), s) \/
              project_to_image_plane pt s = (Raised KeyError, s)) /\
  (camera_intrinsics (config s) <> Returned tt ->
   pose s = Some p -> nearest_ahead p (lights s) = Some i ->
   (length (lights s) <= length (light_waypoints s))%nat ->
   Forall (fun e => e <> []) (light_waypoints s) ->
   (forall pt, project_to_image_plane pt s = (Raised KeyError, s)) /\
   fst (image_cb msg s) = Raised KeyError /\
   upcoming_red_light_pub (snd (image_cb msg s)) = upcoming_red_light_pub s).
Proof.
  split.
  - intros pt. rewrite project_to_image_plane_eq.
    destruct (camera_intrinsics_cases (config s)) as [-> | ->]; auto.
  - intros Hc Hp Hn Hl He.
    destruct (camera_intrinsics_cases (config s)) as [E|E]; [contradiction|].
    split; [intros pt; now rewrite project_to_image_plane_eq, E|].
    rewrite image_cb_eq. cbv zeta.
    assert (Ho : observation s = Raised KeyError).
    { unfold observation. rewrite Hp, Hn.
      destruct (nearest_ahead_in_range _ _ _ Hn) as (n & light & -> & Hlight).
      rewrite (getitem_in_range _ _ _ Hlight). cbn [and_then].
      assert (Hlt : (n < length (lights s))%nat) by (apply nth_error_Some; congruence).
      destruct (nth_error (light_waypoints s) n) as [wps|] eqn:Hw;
        [|apply nth_error_None in Hw; lia].
      rewrite (getitem_in_range _ _ _ Hw). cbn [and_then].
      rewrite Forall_forall in He. specialize (He wps (nth_error_In _ _ Hw)).
      destruct wps as [|w wps]; [contradiction|].
      rewrite getitem_cons_0. cbn [and_then].
      now rewrite E. }
    rewrite Ho. split; reflexivity.
Qed.

Lemma missing_camera_entry_witness :
  camera_intrinsics (config unconfigured_node) <> Returned tt /\
  pose unconfigured_node = Some car_at_origin /\
  nearest_ahead car_at_origin (lights unconfigured_node) = Some 0 /\
  fst (image_cb frame unconfigured_node) = Raised KeyError.
Proof.
  assert (H1 : camera_intrinsics (config unconfigured_node) <> Returned tt) by discriminate.
  assert (H2 : pose unconfigured_node = Some car_at_origin) by reflexivity.
  assert (H3 : nearest_ahead car_at_origin (lights unconfigured_node) = Some 0)
    by (vm_compute; reflexivity).
  split; [exact H1|]. split; [exact H2|]. split; [exact H3|].
  destruct (missing_camera_entry frame unconfigured_node car_at_origin 0) as [_ H].
  apply H; [exact H1|exact H2|exact H3|vm_compute; lia|].
  vm_compute. repeat constructor. discriminate.
Defined.

(** ** The light [get_closest_light] returns *)

(** X5: [get_closest_light] reads [self.pose] and not its argument.
    Without a pose it raises [AttributeError]; with one it returns, writes
    nothing, and its answer is [None] when no light passes the test of the
    loop, else the index of a light that passes it and is at least as near as
    every other such light, and nearer than those before it in the list. *)
Theorem get_closest_light_first_nearest (pose_arg : Pose.t) (s : TLDetector) :
  match pose s with
  | None => get_closest_light pose_arg s = (Raised AttributeError, s)
  | Some p =>
    let ego_pos := point_array (position_of p) in
    let ego_dir := ego_dir_of (Pose.orientation (PoseStamped.pose p)) in
    exists r, get_closest_light pose_arg s = (Returned r, s) /\
    match r with
    | None => forall light, In light (lights s) -> ahead ego_pos ego_dir light = false
    | Some i =>
      exists (n : nat) (light : TrafficLight.t),
        i = Z.of_nat n /\ nth_error (lights s) n = Some light /\
        ahead ego_pos ego_dir light = true /\
        forall (m : nat) (light' : TrafficLight.t),
          nth_error (lights s) m = Some light' -> ahead ego_pos ego_dir light' = true ->
          (distance_sq ego_pos light <= distance_sq ego_pos light')%Q /\
          ((m < n)%nat -> (distance_sq ego_pos light < distance_sq ego_pos light')%Q)
    end
  end.
Proof.
  destruct (pose s) as [p|] eqn:Hp.
  - cbv zeta. exists (nearest_ahead p (lights s)).
    split; [now apply get_closest_light_eq|]. apply nearest_ahead_spec.
  - unfold get_closest_light, bind, get. now rewrite Hp.
Qed.

(** ** Frames in a row *)

Lemma debounce_set_has_image (light_wp c : Z) (b : bool) (s : TLDetector) :
  debounce light_wp c (set_has_image b s) =
  (fst (debounce light_wp c s), set_has_image b (snd (debounce light_wp c s))).
Proof.
  unfold debounce, bind, get, modify, publish; cbn.
  destruct (state s =? c); cbn; [destruct (_ <=? _)|]; reflexivity.
Qed.

(** The debouncer writes nothing of what the next observation reads. *)
Lemma observation_debounce (light_wp c : Z) (s : TLDetector) :
  observation (snd (debounce light_wp c s)) = observation s.
Proof.
  unfold debounce, bind, get, modify, publish; cbn.
  destruct (state s =? c); cbn; [destruct (_ <=? _)|]; reflexivity.
Qed.

Lemma debounce_all_set_frame (obs : list (Z * Z)) (v : option Image.t) (b : bool) :
  forall s,
  debounce_all obs (set_camera_image v (set_has_image b s)) =
  set_camera_image v (set_has_image b (debounce_all obs s)).
Proof.
  induction obs as [|o obs IH]; intros s; [reflexivity|].
  rewrite !debounce_all_cons, debounce_set_camera_image, debounce_set_has_image.
  cbn [snd]. apply IH.
Qed.

(** Frames that arrive with no other message in between all observe the
    same, and the node ends as the debouncer run on that observation, the
    last frame stored. *)
Lemma frames_in_a_row (light_wp c : Z) (imgs : list Image.t) (img : Image.t) :
  forall s, observation s = Returned (light_wp, c) ->
  run (map image_color (img :: imgs)) s =
  set_camera_image (Some (last imgs img))
    (set_has_image true (debounce_all (map (fun _ => (light_wp, c)) (img :: imgs)) s)).
Proof.
  revert img. induction imgs as [|img' imgs IH]; intros img s Ho.
  - cbn [map run fold_left last]. unfold after. cbn [callback].
    rewrite image_cb_eq. cbv zeta. rewrite Ho. cbn [fst snd].
    rewrite debounce_set_camera_image, debounce_set_has_image. reflexivity.
  - change (map image_color (img :: img' :: imgs))
      with (image_color img :: map image_color (img' :: imgs)).
    change (map (fun _ : Image.t => (light_wp, c)) (img :: img' :: imgs))
      with ((light_wp, c) :: map (fun _ : Image.t => (light_wp, c)) (img' :: imgs)).
    rewrite run_cons, debounce_all_cons. cbn [fst snd].
    unfold after at 1. cbn [callback]. rewrite image_cb_eq. cbv zeta. rewrite Ho.
    cbn [fst snd]. rewrite debounce_set_camera_image, debounce_set_has_image.
    cbn [snd]. set (s1 := snd (debounce light_wp c s)).
    rewrite (IH img' (set_camera_image (Some img) (set_has_image true s1))).
    + rewrite debounce_all_set_frame. now rewrite last_cons.
    + subst s1. rewrite <- Ho, <- (observation_debounce light_wp c s). reflexivity.
Qed.

(** X6: when a light is located with waypoint [light_wp] and a colour [c]
    that differs from the colour of the cycle before, and frames then arrive
    with no other message in between, the first three frames keep the stored
    waypoint (the first publishes nothing, the second and the third publish
    it again) and the fourth is the first to store and publish the waypoint
    of the light, or [-1] if [c] is not RED. *)
Theorem fourth_frame_publishes (light_wp c : Z) (imgs : list Image.t) (s : TLDetector) :
  observation s = Returned (light_wp, c) -> state s <> c ->
  let s' := run (map image_color imgs) s in
  ((length imgs <= 3)%nat ->
     last_state s' = last_state s /\ last_wp s' = last_wp s /\
     upcoming_red_light_pub s' =
       upcoming_red_light_pub s ++ repeat (last_wp s) (length imgs - 1)) /\
  ((4 <= length imgs)%nat ->
     last_state s' = c /\ last_wp s' = stop_waypoint light_wp c /\
     upcoming_red_light_pub s' =
       upcoming_red_light_pub s ++ [last_wp s; last_wp s]
         ++ repeat (stop_waypoint light_wp c) (length imgs - 3)).
Proof.
  intros Ho Hne. cbv zeta.
  destruct imgs as [|img imgs]; [cbn; split; [now rewrite app_nil_r|lia]|].
  rewrite (frames_in_a_row light_wp c imgs img s Ho).
  cbn [last_state last_wp upcoming_red_light_pub set_camera_image set_has_image].
  pose proof (debounce_all_fresh c (repeat light_wp (length (img :: imgs))) s Hne) as H.
  cbv zeta in H. rewrite map_repeat, repeat_length, <- (map_const (light_wp, c)) in H.
  destruct H as [Hlow Hhigh]. split; [exact Hlow|].
  intros Hk. destruct (Hhigh Hk) as (HL & HW & HP). rewrite HL, HW, HP.
  split; [reflexivity|].
  destruct imgs as [|i2 [|i3 [|i4 imgs]]]; cbn [length] in Hk; try lia.
  cbn [length]. rewrite last_repeat. split; [reflexivity|].
  cbn [repeat skipn Nat.sub map].
  now rewrite (map_repeat light_wp (length imgs) (fun w => stop_waypoint w c)).
Qed.

Lemma fourth_frame_publishes_witness :
  observation ready_node = Returned (1, TrafficLight.RED) /\
  state ready_node <> TrafficLight.RED /\
  last_wp (run (map image_color [frame; frame; night_frame; frame]) ready_node) = 1 /\
  upcoming_red_light_pub (run (map image_color [frame; frame; night_frame; frame]) ready_node)
    = [-1; -1; 1].
Proof.
  assert (H1 : observation ready_node = Returned (1, TrafficLight.RED))
    by (vm_compute; reflexivity).
  assert (H2 : state ready_node <> TrafficLight.RED) by discriminate.
  split; [exact H1|]. split; [exact H2|].
  destruct (fourth_frame_publishes 1 TrafficLight.RED [frame; frame; night_frame; frame]
              ready_node H1 H2) as [_ H].
  destruct H as (_ & HW & HP); [cbn; lia|]. split; [exact HW|exact HP].
Defined.

(** ** The order of the two updates *)



(** ** The count of the debouncer *)

Lemma trailing_run_snoc (c : Z) (obs : list (Z * Z)) (o : Z * Z) :
  trailing_run c (obs ++ [o]) = if snd o =? c then 1 + trailing_run c obs else 0.
Proof. unfold trailing_run. now rewrite rev_unit. Qed.

Lemma trailing_run_other (c : Z) (obs : list (Z * Z)) (d : Z * Z) :
  snd (last obs d) <> c -> trailing_run c obs = 0.
Proof.
  destruct obs as [|o obs] using rev_ind; [reflexivity|].
  rewrite last_last, trailing_run_snoc. intros H.
  now destruct (Z.eqb_spec (snd o) c).
Qed.

Lemma trailing_run_nonneg (c : Z) (obs : list (Z * Z)) : 0 <= trailing_run c obs.
Proof.
  unfold trailing_run. induction (rev obs) as [|o l IH]; cbn [leading_run]; [lia|].
  destruct (snd o =? c); lia.
Qed.

Lemma debounce_all_snoc (obs : list (Z * Z)) (o : Z * Z) (s : TLDetector) :
  debounce_all (obs ++ [o]) s = snd (debounce (fst o) (snd o) (debounce_all obs s)).
Proof. now rewrite debounce_all_app. Qed.

Lemma state_count_trailing_run cfg br li (obs : list (Z * Z)) :
  let s := debounce_all obs (init cfg br li) in
  state s = snd (last obs (-1, TrafficLight.UNKNOWN)) /\
  state_count s = trailing_run (state s) obs.
Proof.
  cbv zeta. induction obs as [|[w c] obs IH] using rev_ind; [split; reflexivity|].
  destruct IH as [IH1 IH2]. rewrite debounce_all_snoc, last_last. cbn [fst snd].
  set (t := debounce_all obs (init cfg br li)) in *.
  rewrite trailing_run_snoc. cbn [snd].
  destruct (Z.eq_dec (state t) c) as [E|N].
  - assert (H : state (snd (debounce w c t)) = c /\
                state_count (snd (debounce w c t)) = state_count t + 1).
    { destruct (Z_lt_le_dec (state_count t) STATE_COUNT_THRESHOLD) as [Hlt|Hle].
      - now destruct (debounce_carry w c t E Hlt) as (? & ? & _).
      - now destruct (debounce_commit w c t E Hle) as (? & ? & _). }
    destruct H as [-> ->]. rewrite Z.eqb_refl, IH2, E. split; [reflexivity|lia].
  - destruct (debounce_change w c t N) as (-> & -> & _). rewrite Z.eqb_refl.
    rewrite (trailing_run_other c obs (-1, TrafficLight.UNKNOWN)) by congruence.
    split; reflexivity.
Qed.

(** X8: from the start of the node, after any sequence of observations
    the counter is the number of observations of the current colour at the
    end of the sequence; and the next cycle, on colour [c], commits exactly
    when the last three observations were of colour [c]: then it makes [c]
    the stable colour and stores and publishes its waypoint; otherwise it
    leaves the stable colour and the stored waypoint as they are and
    publishes at most the stored waypoint. *)
Theorem commit_after_three_alike cfg br li (obs : list (Z * Z)) (light_wp c : Z) :
  let s := debounce_all obs (init cfg br li) in
  let s' := debounce_all (obs ++ [(light_wp, c)]) (init cfg br li) in
  state_count s = trailing_run (state s) obs /\
  state s = snd (last obs (-1, TrafficLight.UNKNOWN)) /\
  (3 <= trailing_run c obs ->
     last_state s' = c /\ last_wp s' = stop_waypoint light_wp c /\
     upcoming_red_light_pub s' = upcoming_red_light_pub s ++ [stop_waypoint light_wp c]) /\
  (trailing_run c obs < 3 ->
     last_state s' = last_state s /\ last_wp s' = last_wp s /\
     (upcoming_red_light_pub s' = upcoming_red_light_pub s \/
      upcoming_red_light_pub s' = upcoming_red_light_pub s ++ [last_wp s])).
Proof.
  cbv zeta. destruct (state_count_trailing_run cfg br li obs) as [H1 H2].
  rewrite debounce_all_snoc. cbn [fst snd].
  set (t := debounce_all obs (init cfg br li)) in *.
  split; [exact H2|]. split; [exact H1|].
  destruct (Z.eq_dec (state t) c) as [E|N].
  - rewrite E in H2. split; intros Hr.
    + destruct (debounce_commit light_wp c t E) as (_ & _ & L & W & P);
        [unfold STATE_COUNT_THRESHOLD; lia|auto].
    + destruct (debounce_carry light_wp c t E) as (_ & _ & L & W & P);
        [unfold STATE_COUNT_THRESHOLD; lia|auto].
  - assert (Hz : trailing_run c obs = 0)
      by (apply (trailing_run_other c obs (-1, TrafficLight.UNKNOWN)); congruence).
    split; intros Hr; [lia|].
    destruct (debounce_change light_wp c t N) as (_ & _ & L & W & P). auto.
Qed.

Lemma commit_after_three_alike_witness :
  3 <= trailing_run TrafficLight.RED
         [(5, TrafficLight.GREEN); (7, TrafficLight.RED); (7, TrafficLight.RED);
          (7, TrafficLight.RED)] /\
  last_wp (debounce_all
             ([(5, TrafficLight.GREEN); (7, TrafficLight.RED); (7, TrafficLight.RED);
               (7, TrafficLight.RED)] ++ [(7, TrafficLight.RED)]) node0) = 7.
Proof.
  assert (H : 3 <= trailing_run TrafficLight.RED
                     [(5, TrafficLight.GREEN); (7, TrafficLight.RED); (7, TrafficLight.RED);
                      (7, TrafficLight.RED)]) by (vm_compute; discriminate).
  split; [exact H|].
  destruct (commit_after_three_alike camera_config (fun _ => []) None
              [(5, TrafficLight.GREEN); (7, TrafficLight.RED); (7, TrafficLight.RED);
               (7, TrafficLight.RED)] 7 TrafficLight.RED) as (_ & _ & Hc & _).
  destruct (Hc H) as (_ & W & _). exact W.
Defined.

(** ** What the node publishes *)

Ltac fields :=
  cbn [pose waypoints camera_image lights config bridge listener upcoming_red_light_pub
       base_wp_sub state last_state last_wp state_count light_waypoints light_indexed
       has_image prev_light_loc
       set_pose set_waypoints set_camera_image set_lights set_upcoming_red_light_pub
       set_base_wp_sub set_state set_last_state set_last_wp set_state_count
       set_light_waypoints set_light_indexed set_has_image set_prev_light_loc
       fst snd] in *.

(** A cycle leaves the route, its subscription and the lights alone. *)
Lemma image_cb_route (msg : Image.t) (s : TLDetector) :
  waypoints (snd (image_cb msg s)) = waypoints s /\
  base_wp_sub (snd (image_cb msg s)) = base_wp_sub s /\
  lights (snd (image_cb msg s)) = lights s.
Proof.
  rewrite image_cb_eq. cbv zeta. destruct (observation s) as [[w c]|e]; [|now repeat split].
  unfold debounce, bind, get, modify, publish; cbn.
  destruct (state s =? c); cbn; [destruct (_ <=? _)|]; cbn; auto.
Qed.

Lemma in_all_indices (wps : list Waypoint.t) (v : Z) :
  In v (all_indices wps) <-> 0 <= v < Z.of_nat (length wps).
Proof.
  unfold all_indices. rewrite in_map_iff. split.
  - intros (n & <- & Hn). apply in_seq in Hn. lia.
  - intros H. exists (Z.to_nat v). split; [lia|]. apply in_seq. lia.
Qed.

(** The head of an entry that is a permutation of the indices of the
    route is an index of the route. *)
Lemma stored_waypoint_valid (s : TLDetector) :
  Forall (fun e => Permutation e (all_indices (waypoints s))) (light_waypoints s) ->
  stored_waypoint_ok s -> valid_waypoint s (last_wp s).
Proof.
  intros Hp [H|(i & wps & Hi & Hh)]; [now left|right].
  rewrite Forall_forall in Hp. specialize (Hp wps (nth_error_In _ _ Hi)).
  apply in_all_indices. apply (Permutation_in _ Hp).
  destruct wps as [|w wps]; [discriminate|]. injection Hh as ->. now left.
Qed.

Lemma route_ok_deliver (m : message) (s : TLDetector) :
  route_ok s -> route_ok (deliver m s).
Proof.
  intros H0. pose proof H0 as (H1 & H2 & H3 & H4 & H5 & H6).
  destruct m as [p|w|l|img]; unfold deliver.
  - unfold after, route_ok, stored_waypoint_ok, valid_waypoint in *. cbn [callback].
    unfold pose_cb, modify. fields. auto 10.
  - destruct (base_wp_sub s) eqn:B; [|exact H0].
    specialize (H1 eq_refl). specialize (H2 H1).
    assert (Hl : last_wp s = -1).
    { destruct H5 as [H|(i & wps & Hi & _)]; [exact H|].
      rewrite H2 in Hi. now destruct i. }
    assert (Hpub : forall wps' : list Waypoint.t,
                     Forall (fun v => v = -1 \/ 0 <= v < Z.of_nat (length wps'))
                                  (upcoming_red_light_pub s)).
    { intros wps'. eapply Forall_impl; [|exact H6].
      unfold valid_waypoint. rewrite H1. cbn [length]. intros v [Hv|Hv]; [now left|lia]. }
    unfold after. cbn [callback]. rewrite waypoints_cb_eq. cbv zeta.
    destruct (truthy w && truthy (lights s) && negb (light_indexed s)) eqn:G.
    + rewrite index_lights_eq. unfold route_ok, stored_waypoint_ok, valid_waypoint. fields.
      rewrite H2. cbn [app]. repeat split; try discriminate.
      * intros ->. discriminate.
      * apply Forall_map, Forall_forall. intros light _. apply waypoint_indices_perm.
      * now left.
      * apply Hpub.
    + unfold route_ok, stored_waypoint_ok, valid_waypoint. fields.
      rewrite H2. repeat split; auto; discriminate.
  - unfold after. cbn [callback]. rewrite traffic_cb_eq. cbv zeta.
    destruct (truthy (waypoints s) && truthy l && negb (light_indexed s)) eqn:G.
    + apply andb_true_iff in G. destruct G as [G Gi].
      apply andb_true_iff in G. destruct G as [Gw Gl].
      apply negb_true_iff in Gi. specialize (H3 Gi).
      assert (Hw : waypoints s <> []) by (intros E; rewrite E in Gw; discriminate).
      assert (Hl : last_wp s = -1).
      { destruct H5 as [H|(i & wps & Hi & _)]; [exact H|].
        rewrite H3 in Hi. now destruct i. }
      rewrite index_lights_eq. unfold route_ok, stored_waypoint_ok, valid_waypoint in *.
      fields. rewrite H3. cbn [app]. repeat split; try discriminate; try contradiction; auto.
      apply Forall_map, Forall_forall. intros light _. apply waypoint_indices_perm.
    + unfold route_ok, stored_waypoint_ok, valid_waypoint in *. fields. auto 10.
  - unfold after. cbn [callback].
    destruct (image_cb_index img s) as [Ei Ew].
    destruct (image_cb_route img s) as (Er & Eb & _).
    destruct (image_cb_keeps_or_commits img s) as [K S].
    assert (V : valid_waypoint s (last_wp s)) by now apply stored_waypoint_valid.
    assert (H4' : Forall (fun e => Permutation e
                            (all_indices (waypoints (snd (image_cb img s)))))
                         (light_waypoints (snd (image_cb img s))))
      by (now rewrite Er, Ew).
    assert (V' : valid_waypoint (snd (image_cb img s)) (last_wp (snd (image_cb img s))))
      by (apply stored_waypoint_valid; auto).
    unfold route_ok. rewrite Er, Eb, Ei, Ew in *.
    repeat split; auto.
    unfold valid_waypoint in *. rewrite Er in *.
    destruct K as [[_ [P|P]]|(_ & _ & _ & _ & P & _)]; rewrite P; auto;
      apply Forall_app; split; auto.
Qed.

Lemma route_ok_deliver_all (ms : list message) :
  forall s, route_ok s -> route_ok (deliver_all ms s).
Proof.
  induction ms as [|m ms IH]; intros s H; [exact H|].
  cbn [deliver_all fold_left]. apply IH. now apply route_ok_deliver.
Qed.

(** X9: whatever messages arrive and in whatever order, every value the
    node has published on [/traffic_waypoint], and the waypoint it has
    stored, is [-1] or the index of a waypoint of the route the node holds;
    and every entry of the table is a permutation of the indices of that
    route. *)
Theorem published_waypoints_valid cfg br li (ms : list message) :
  let s := deliver_all ms (init cfg br li) in
  Forall (valid_waypoint s) (upcoming_red_light_pub s) /\
  valid_waypoint s (last_wp s) /\
  Forall (fun e => Permutation e (all_indices (waypoints s))) (light_waypoints s).
Proof.
  cbv zeta.
  assert (H : route_ok (deliver_all ms (init cfg br li))).
  { apply route_ok_deliver_all. unfold route_ok, stored_waypoint_ok. cbn. auto 10. }
  destruct H as (_ & _ & _ & H4 & H5 & H6).
  split; [exact H6|]. split; [now apply stored_waypoint_valid|exact H4].
Qed.

(** Nothing registers the subscription again, and without it the route
    stays. *)
Lemma deliver_unregistered (m : message) (s : TLDetector) :
  base_wp_sub s = false ->
  base_wp_sub (deliver m s) = false /\ waypoints (deliver m s) = waypoints s.
Proof.
  intros B. destruct m as [p|w|l|img]; unfold deliver.
  - now split.
  - now rewrite B.
  - unfold after. cbn [callback]. rewrite traffic_cb_eq. cbv zeta.
    destruct (_ && _); [rewrite index_lights_eq|]; fields; now split.
  - unfold after. cbn [callback]. destruct (image_cb_route img s) as (Er & Eb & _).
    now rewrite Er, Eb.
Qed.

(** X10: the first route delivered is the route for good: [waypoints_cb]
    stores it and unregisters the subscription, and no message delivered
    afterwards changes it, a second message on [/base_waypoints] included. *)
Theorem route_set_once (w : list Waypoint.t) (ms : list message) (s : TLDetector) :
  base_wp_sub s = true ->
  let s1 := deliver (base_waypoints w) s in
  waypoints s1 = w /\
  waypoints (deliver_all ms s1) = w /\ base_wp_sub (deliver_all ms s1) = false.
Proof.
  intros B. cbv zeta.
  assert (H : waypoints (deliver (base_waypoints w) s) = w /\
              base_wp_sub (deliver (base_waypoints w) s) = false).
  { unfold deliver. rewrite B. unfold after. cbn [callback].
    rewrite waypoints_cb_eq. cbv zeta.
    destruct (_ && _); [rewrite index_lights_eq|]; fields; now split. }
  destruct H as [Hw Hb]. split; [exact Hw|].
  revert Hw Hb. generalize (deliver (base_waypoints w) s) as t.
  induction ms as [|m ms IH]; intros t Hw Hb; [now split|].
  cbn [deliver_all fold_left].
  destruct (deliver_unregistered m t Hb) as [Hb' Hw'].
  apply IH; congruence.
Qed.

Lemma route_set_once_witness :
  base_wp_sub node0 = true /\
  waypoints (deliver_all [base_waypoints []; image_color frame;
                          base_waypoints [waypoint_at 5 5 5]]
               (deliver (base_waypoints route) node0)) = route.
Proof.
  split; [reflexivity|].
  apply (route_set_once route
           [base_waypoints []; image_color frame; base_waypoints [waypoint_at 5 5 5]] node0).
  reflexivity.
Defined.

(** ** The stored waypoint and the stable colour *)

(** The observation of a cycle that located no light is [(-1, UNKNOWN)];
    otherwise its waypoint heads an entry of the table. *)
Lemma observation_located (s : TLDetector) (light_wp c : Z) :
  observation s = Returned (light_wp, c) ->
  (light_wp = -1 /\ c = TrafficLight.UNKNOWN) \/
  exists (i : nat) (way_points : list Z),
    nth_error (light_waypoints s) i = Some way_points /\
    hd_error way_points = Some light_wp.
Proof.
  unfold observation. destruct (pose s) as [p|]; [|intros [= <- <-]; now left].
  destruct (nearest_ahead p (lights s)) as [i|]; [|intros [= <- <-]; now left].
  destruct (getitem (lights s) i) as [light|e]; [|discriminate]. cbn [and_then].
  destruct (getitem (light_waypoints s) i) as [wps|e] eqn:G; [|discriminate].
  cbn [and_then]. destruct (getitem wps 0) as [w|e] eqn:G0; [|discriminate].
  cbn [and_then]. destruct (camera_intrinsics _); [|discriminate]. cbn [and_then].
  intros [= <- _]. right.
  destruct (getitem_returned _ _ _ G) as [n Hn]. exists n, wps.
  split; [exact Hn|now apply getitem_head].
Qed.

Lemma waypoint_indices_nonneg (wps : list Waypoint.t) (light : TrafficLight.t) :
  Forall (fun i => 0 <= i) (waypoint_indices wps light).
Proof.
  apply Forall_forall. intros v Hv.
  apply (Permutation_in _ (waypoint_indices_perm wps light)), in_all_indices in Hv. lia.
Qed.

Lemma decision_ok_index_lights (s : TLDetector) :
  decision_ok s -> decision_ok (snd (index_lights s)).
Proof.
  intros (H1 & H2 & H3). rewrite index_lights_eq. unfold decision_ok. fields.
  repeat split; auto. apply Forall_app. split; [exact H1|].
  apply Forall_map, Forall_forall. intros light _. apply waypoint_indices_nonneg.
Qed.

Lemma decision_ok_after (m : message) (s : TLDetector) :
  decision_ok s -> decision_ok (after m s).
Proof.
  intros H. pose proof H as (H1 & H2 & H3).
  unfold after. destruct m as [p|w|l|img]; cbn [callback].
  - exact H.
  - rewrite waypoints_cb_eq. cbv zeta.
    destruct (_ && _); [apply decision_ok_index_lights|]; exact H.
  - rewrite traffic_cb_eq. cbv zeta.
    destruct (_ && _); [apply decision_ok_index_lights|]; exact H.
  - destruct (image_cb_index img s) as [_ Ew].
    unfold decision_ok. rewrite Ew. split; [exact H1|].
    rewrite image_cb_eq. cbv zeta.
    destruct (observation s) as [[w c]|e] eqn:Ho; [|fields; auto].
    cbn [fst snd]. set (s1 := set_camera_image (Some img) (set_has_image true s)).
    change (last_state s) with (last_state s1) in *.
    change (last_wp s) with (last_wp s1) in *.
    destruct (Z.eq_dec (state s1) c) as [E|N].
    + destruct (Z_lt_le_dec (state_count s1) STATE_COUNT_THRESHOLD) as [Hlt|Hle].
      * destruct (debounce_carry w c s1 E Hlt) as (_ & _ & EL & EW & _).
        rewrite EL, EW. auto.
      * destruct (debounce_commit w c s1 E Hle) as (_ & _ & EL & EW & _).
        rewrite EL, EW.
        unfold stop_waypoint. destruct (Z.eqb_spec c TrafficLight.RED) as [Hc|Hc].
        -- split; [intros _|congruence].
           destruct (observation_located _ _ _ Ho) as [[_ Hu]|(i & wps & Hi & Hh)];
             [rewrite Hc in Hu; vm_compute in Hu; discriminate Hu|].
           rewrite Forall_forall in H1. specialize (H1 wps (nth_error_In _ _ Hi)).
           rewrite Forall_forall in H1. apply H1.
           destruct wps as [|v wps]; [discriminate|]. injection Hh as ->. now left.
        -- split; [congruence|reflexivity].
    + destruct (debounce_change w c s1 N) as (_ & _ & EL & EW & _).
      rewrite EL, EW. auto.
Qed.

(** X11: in every state the node reaches, the stored waypoint is a
    waypoint index (not the sentinel) exactly when the stable colour is RED,
    and no entry of the table holds a negative index. *)
Theorem stop_stored_iff_red cfg br li (ms : list message) :
  let s := run ms (init cfg br li) in
  (last_state s = TrafficLight.RED <-> last_wp s <> -1) /\
  (last_state s = TrafficLight.RED -> 0 <= last_wp s) /\
  Forall (Forall (fun i => 0 <= i)) (light_waypoints s).
Proof.
  cbv zeta.
  assert (H : decision_ok (run ms (init cfg br li))).
  { assert (G : forall s, decision_ok s -> decision_ok (run ms s)).
    { induction ms as [|m ms IH]; intros s Hs; [exact Hs|].
      rewrite run_cons. apply IH. now apply decision_ok_after. }
    apply G. unfold decision_ok. cbn. repeat split; auto; discriminate. }
  destruct H as (H1 & H2 & H3). split; [|split; assumption].
  split.
  - intros E. specialize (H2 E). lia.
  - intros N. destruct (Z.eq_dec (last_state (run ms (init cfg br li))) TrafficLight.RED)
      as [E|E]; [exact E|]. now specialize (H3 E).
Qed.

(** ** Cycles without a light *)

(** X12: a cycle that locates no light, for want of a pose or of a light
    ahead, reads neither the table nor the configuration: it returns,
    whatever their state, observes [(-1, UNKNOWN)], and what it publishes is
    the stored waypoint or [-1]. *)
Theorem cycle_without_light (msg : Image.t) (s : TLDetector) :
  (pose s = None \/ exists p, pose s = Some p /\ nearest_ahead p (lights s) = None) ->
  let s' := snd (image_cb msg s) in
  process_traffic_lights s = (Returned (-1, TrafficLight.UNKNOWN), s) /\
  fst (image_cb msg s) = Returned tt /\
  (upcoming_red_light_pub s' = upcoming_red_light_pub s \/
   upcoming_red_light_pub s' = upcoming_red_light_pub s ++ [last_wp s] \/
   upcoming_red_light_pub s' = upcoming_red_light_pub s ++ [-1]) /\
  (last_wp s' = last_wp s \/ last_wp s' = -1).
Proof.
  intros H. cbv zeta. split; [now apply process_traffic_lights_no_light|].
  assert (Ho : observation s = Returned (-1, TrafficLight.UNKNOWN)).
  { unfold observation. destruct H as [->|(p & -> & ->)]; reflexivity. }
  rewrite image_cb_eq. cbv zeta. rewrite Ho. cbn [fst snd].
  split; [apply debounce_returns|].
  set (s1 := set_camera_image (Some msg) (set_has_image true s)).
  change (upcoming_red_light_pub s) with (upcoming_red_light_pub s1).
  change (last_wp s) with (last_wp s1).
  destruct (Z.eq_dec (state s1) TrafficLight.UNKNOWN) as [E|N].
  - destruct (Z_lt_le_dec (state_count s1) STATE_COUNT_THRESHOLD) as [Hlt|Hle].
    + destruct (debounce_carry (-1) _ s1 E Hlt) as (_ & _ & _ & W & P). auto.
    + destruct (debounce_commit (-1) _ s1 E Hle) as (_ & _ & _ & W & P). auto.
  - destruct (debounce_change (-1) _ s1 N) as (_ & _ & _ & W & P). auto.
Qed.

Lemma cycle_without_light_witness :
  (pose node0 = None \/
   exists p, pose node0 = Some p /\ nearest_ahead p (lights node0) = None) /\
  fst (image_cb frame node0) = Returned tt /\
  upcoming_red_light_pub (snd (image_cb frame node0)) = [-1].
Proof.
  assert (H : pose node0 = None \/
              exists p, pose node0 = Some p /\ nearest_ahead p (lights node0) = None)
    by (left; reflexivity).
  split; [exact H|].
  destruct (cycle_without_light frame node0 H) as (_ & R & _ & _).
  split; [exact R|reflexivity].
Defined.

Lemma no_pose_after (m : message) (s : TLDetector) :
  is_pose m = false ->
  pose s = None -> state s = TrafficLight.UNKNOWN -> last_wp s = -1 ->
  pose (after m s) = None /\ state (after m s) = TrafficLight.UNKNOWN /\
  last_wp (after m s) = -1 /\
  upcoming_red_light_pub (after m s)
    = upcoming_red_light_pub s ++ repeat (-1) (frames [m]).
Proof.
  intros Hm Hp Hs Hw. unfold after. destruct m as [p|w|l|img]; cbn [callback].
  - discriminate.
  - rewrite waypoints_cb_eq. cbv zeta.
    destruct (_ && _); [rewrite index_lights_eq|]; fields; cbn [frames filter length repeat];
      now rewrite app_nil_r.
  - rewrite traffic_cb_eq. cbv zeta.
    destruct (_ && _); [rewrite index_lights_eq|]; fields; cbn [frames filter length repeat];
      now rewrite app_nil_r.
  - assert (Ho : observation s = Returned (-1, TrafficLight.UNKNOWN))
      by (unfold observation; now rewrite Hp).
    rewrite image_cb_eq. cbv zeta. rewrite Ho. cbn [fst snd].
    set (s1 := set_camera_image (Some img) (set_has_image true s)).
    change (upcoming_red_light_pub s) with (upcoming_red_light_pub s1).
    assert (Hp1 : pose (snd (debounce (-1) TrafficLight.UNKNOWN s1)) = None)
      by (destruct (debounce_frame (-1) TrafficLight.UNKNOWN s1) as (-> & _); exact Hp).
    split; [exact Hp1|]. cbn [frames filter length repeat].
    destruct (Z_lt_le_dec (state_count s1) STATE_COUNT_THRESHOLD) as [Hlt|Hle].
    + destruct (debounce_carry (-1) _ s1 Hs Hlt) as (E & _ & _ & W & P).
      rewrite E, W, P. change (last_wp s1) with (last_wp s). rewrite Hw. auto.
    + destruct (debounce_commit (-1) _ s1 Hs Hle) as (E & _ & _ & W & P).
      rewrite E, W, P. auto.
Qed.

(** X13: as long as no pose has arrived, whatever else arrives, every
    frame makes the node publish [-1], once, and no cycle raises or stores a
    waypoint. *)
Theorem sentinel_until_first_pose cfg br li (ms : list message) :
  forallb (fun m => negb (is_pose m)) ms = true ->
  let s := run ms (init cfg br li) in
  upcoming_red_light_pub s = repeat (-1) (frames ms) /\
  last_wp s = -1 /\ pose s = None /\
  forall img, fst (image_cb img s) = Returned tt.
Proof.
  intros Hms. cbv zeta.
  assert (G : forall s, pose s = None -> state s = TrafficLight.UNKNOWN -> last_wp s = -1 ->
            pose (run ms s) = None /\ state (run ms s) = TrafficLight.UNKNOWN /\
            last_wp (run ms s) = -1 /\
            upcoming_red_light_pub (run ms s)
              = upcoming_red_light_pub s ++ repeat (-1) (frames ms)).
  { induction ms as [|m ms IH]; intros s Hp Hs Hw.
    - cbn. now rewrite app_nil_r.
    - cbn [forallb] in Hms. apply andb_true_iff in Hms. destruct Hms as [Hm Hms].
      apply negb_true_iff in Hm.
      destruct (no_pose_after m s Hm Hp Hs Hw) as (Hp' & Hs' & Hw' & P').
      rewrite run_cons. destruct (IH Hms _ Hp' Hs' Hw') as (? & ? & ? & P).
      repeat split; auto. rewrite P, P', <- app_assoc, <- repeat_app. f_equal. f_equal.
      unfold frames. cbn [filter]. destruct m; cbn [length app]; reflexivity. }
  destruct (G (init cfg br li) eq_refl eq_refl eq_refl) as (Hp & _ & Hw & P).
  repeat split; auto.
  intros img. rewrite image_cb_eq. cbv zeta. unfold observation. rewrite Hp.
  apply debounce_returns.
Qed.

Lemma sentinel_until_first_pose_witness :
  forallb (fun m => negb (is_pose m))
    [image_color frame; base_waypoints route; image_color frame;
     traffic_lights [light_at 1 0 0 TrafficLight.RED]; image_color night_frame] = true /\
  upcoming_red_light_pub
    (run [image_color frame; base_waypoints route; image_color frame;
          traffic_lights [light_at 1 0 0 TrafficLight.RED]; image_color night_frame] node0)
  = [-1; -1; -1].
Proof.
  split; [reflexivity|].
  apply (sentinel_until_first_pose camera_config (fun _ => []) None
           [image_color frame; base_waypoints route; image_color frame;
            traffic_lights [light_at 1 0 0 TrafficLight.RED]; image_color night_frame]).
  reflexivity.
Defined.
